(** * OpenChatMobile: the relay server ([src/backend/server.js])

    A shallow embedding of the WebSocket streaming relay, the connection
    registry with its heartbeat timers, and the HTTP handlers of
    [src/backend/server.js], together with the properties the specification
    states about them.

    Conventions.
    - A JavaScript string is the list of its UTF-16 code units ([jsstring]).
    - A JavaScript exception is a value of type [exn]; code that may throw
      runs in the monad [M] (server state + exception), and [try_catch] is
      the [try { } catch (e) { }] statement.
    - An [async] handler is cut at each [await]: the part up to the first
      [await] runs when the event arrives, and what follows an [await] runs
      when the awaited promise settles ([EvFetch], [EvRead]).  The handlers
      suspended at an [await] are the [tasks] of the server state. *)

From Stdlib Require Import ZArith NArith List Ascii String Lia Bool.
From Stdlib Require Import Decimal DecimalString DecimalPos.
From stdpp Require Import base option list gmap strings.

Local Open Scope N_scope.
Set Warnings "-register-all".

(** ** JavaScript strings *)

Definition jsstring := list N.

(** A source-code string literal, as code units. *)
Definition lit (s : string) : jsstring :=
  map N_of_ascii (list_ascii_of_string s).

Definition LF : N := 10.

Definition jsstring_eqb (a b : jsstring) : bool := bool_decide (a = b).

(** [s.startsWith(p)] *)
Fixpoint startsWith (p s : jsstring) : bool :=
  match p, s with
  | [], _ => true
  | _ :: _, [] => false
  | a :: p', b :: s' => (a =? b) && startsWith p' s'
  end.

(** [s.endsWith(p)] *)
Definition endsWith (p s : jsstring) : bool :=
  startsWith (rev p) (rev s).

(** [s.substring(n)] for [n >= 0] *)
Definition substring_from (n : nat) (s : jsstring) : jsstring := drop n s.

(** [s.substring(0, n)] *)
Definition substring_to (n : nat) (s : jsstring) : jsstring := take n s.

(** [s.split(sep)] for a separator of one code unit: the pieces between
    the separators; a string without separator is its own single piece. *)
Fixpoint split (sep : N) (s : jsstring) : list jsstring :=
  match s with
  | [] => [[]]
  | c :: s' =>
      if c =? sep then [] :: split sep s'
      else match split sep s' with
           | [] => [[c]]
           | piece :: pieces => (c :: piece) :: pieces
           end
  end.

(** ** JSON values *)

(** A JSON number literal, kept as the exact decimal it denotes:
    [(-1)^neg * mant * 10^exp10].  The rounding to a double is modelled
    only where the server depends on it, in [number_is_zero]. *)
Record number := Number { neg : bool; mant : N; exp10 : Z }.

Definition num_of_N (n : N) : number := Number false n 0.

Inductive json :=
| JNull
| JBool (b : bool)
| JNum (n : number)
| JStr (s : jsstring)
| JArr (items : list json)
| JObj (members : list (jsstring * json)).

(** A JavaScript value read from a property: [None] is [undefined]. *)
Definition jsvalue := option json.

(** The double nearest to a positive decimal is [0] exactly when the
    decimal is at most [2^-1075], half the least subnormal. *)
Definition number_is_zero (n : number) : bool :=
  (mant n =? 0) ||
  (if (exp10 n <? 0)%Z
   then (Z.of_N (mant n) * 2 ^ 1075 <=? 10 ^ (- exp10 n))%Z
   else false).

(** [ToBoolean], as used by [if (v)] and [v || d]. *)
Definition truthy (v : jsvalue) : bool :=
  match v with
  | None => false
  | Some JNull => false
  | Some (JBool b) => b
  | Some (JNum n) => negb (number_is_zero n)
  | Some (JStr s) => negb (jsstring_eqb s [])
  | Some (JArr _) => true
  | Some (JObj _) => true
  end.

(** [v || d] with a JSON default [d] *)
Definition or_default (v : jsvalue) (d : json) : json :=
  match v with
  | Some j => if truthy v then j else d
  | None => d
  end.

(** The member of an object under a key: [JSON.parse] keeps the last of
    several members with one key. *)
Fixpoint lookup_member (k : jsstring) (ms : list (jsstring * json)) : jsvalue :=
  match ms with
  | [] => None
  | (k', v) :: ms' =>
      match lookup_member k ms' with
      | Some w => Some w
      | None => if jsstring_eqb k' k then Some v else None
      end
  end.

(** ** [JSON.parse]

    A push-down automaton that reads the text one code unit at a time.  The
    stack holds the arrays and objects that are still open. *)

Inductive frame :=
| FArr (acc : list json)
| FObj (acc : list (jsstring * json)) (key : option jsstring).

Inductive numstate :=
| NSign | NZero | NInt | NDot | NFrac | NE | NESign | NExp.

Record numacc := NumAcc {
  na_state : numstate;
  na_neg : bool;
  na_mant : N;
  na_scale : Z;
  na_eneg : bool;
  na_exp : N
}.

Inductive mode :=
| MValue
| MValueOrClose
| MKeyOrClose
| MKey
| MColon
| MAfter
| MEnd (v : json)
| MStr (is_key : bool) (acc : jsstring)
| MEsc (is_key : bool) (acc : jsstring)
| MHex (is_key : bool) (acc : jsstring) (more : nat) (code : N)
| MLit (rest : jsstring) (v : json)
| MNum (na : numacc).

Record pstate := PState { stack : list frame; pmode : mode }.

Definition is_ws (c : N) : bool :=
  (c =? 32) || (c =? 9) || (c =? 10) || (c =? 13).

Definition digit_of (c : N) : option N :=
  if (48 <=? c) && (c <=? 57) then Some (c - 48) else None.

Definition hex_of (c : N) : option N :=
  if (48 <=? c) && (c <=? 57) then Some (c - 48)
  else if (97 <=? c) && (c <=? 102) then Some (c - 87)
  else if (65 <=? c) && (c <=? 70) then Some (c - 55)
  else None.

(** A value is complete: it becomes the result, an element of the open
    array, or the value of the pending key of the open object. *)
Definition push_value (v : json) (st : list frame) : option pstate :=
  match st with
  | [] => Some (PState [] (MEnd v))
  | FArr acc :: rest => Some (PState (FArr (v :: acc) :: rest) MAfter)
  | FObj acc (Some k) :: rest =>
      Some (PState (FObj ((k, v) :: acc) None :: rest) MAfter)
  | FObj _ None :: _ => None
  end.

Definition close_array (st : list frame) : option pstate :=
  match st with
  | FArr acc :: rest => push_value (JArr (rev acc)) rest
  | _ => None
  end.

Definition close_object (st : list frame) : option pstate :=
  match st with
  | FObj acc None :: rest => push_value (JObj (rev acc)) rest
  | _ => None
  end.

Definition finish_string (is_key : bool) (s : jsstring) (st : list frame)
  : option pstate :=
  if is_key then
    match st with
    | FObj acc None :: rest => Some (PState (FObj acc (Some s) :: rest) MColon)
    | _ => None
    end
  else push_value (JStr s) st.

Definition num_start (c : N) : option numacc :=
  if c =? 45 then Some (NumAcc NSign true 0 0 false 0)
  else if c =? 48 then Some (NumAcc NZero false 0 0 false 0)
  else match digit_of c with
       | Some d => Some (NumAcc NInt false d 0 false 0)
       | None => None
       end.

Definition is_e (c : N) : bool := (c =? 101) || (c =? 69).

Definition num_step (a : numacc) (c : N) : option numacc :=
  let '(NumAcc q sg m sc en ex) := a in
  match q with
  | NSign =>
      if c =? 48 then Some (NumAcc NZero sg 0 sc en ex)
      else match digit_of c with
           | Some d => Some (NumAcc NInt sg d sc en ex)
           | None => None
           end
  | NZero =>
      if c =? 46 then Some (NumAcc NDot sg m sc en ex)
      else if is_e c then Some (NumAcc NE sg m sc en ex)
      else None
  | NInt =>
      match digit_of c with
      | Some d => Some (NumAcc NInt sg (10 * m + d) sc en ex)
      | None =>
          if c =? 46 then Some (NumAcc NDot sg m sc en ex)
          else if is_e c then Some (NumAcc NE sg m sc en ex)
          else None
      end
  | NDot =>
      match digit_of c with
      | Some d => Some (NumAcc NFrac sg (10 * m + d) (sc + 1) en ex)
      | None => None
      end
  | NFrac =>
      match digit_of c with
      | Some d => Some (NumAcc NFrac sg (10 * m + d) (sc + 1) en ex)
      | None => if is_e c then Some (NumAcc NE sg m sc en ex) else None
      end
  | NE =>
      if c =? 43 then Some (NumAcc NESign sg m sc false ex)
      else if c =? 45 then Some (NumAcc NESign sg m sc true ex)
      else match digit_of c with
           | Some d => Some (NumAcc NExp sg m sc en d)
           | None => None
           end
  | NESign =>
      match digit_of c with
      | Some d => Some (NumAcc NExp sg m sc en d)
      | None => None
      end
  | NExp =>
      match digit_of c with
      | Some d => Some (NumAcc NExp sg m sc en (10 * ex + d))
      | None => None
      end
  end.

(** The number read so far, when the literal may end here. *)
Definition num_finish (a : numacc) : option number :=
  let '(NumAcc q sg m sc en ex) := a in
  let e := (if en then - Z.of_N ex else Z.of_N ex)%Z in
  match q with
  | NZero | NInt | NFrac | NExp => Some (Number sg m (e - sc))
  | NSign | NDot | NE | NESign => None
  end.

(** After a complete value: separators, closers and white space. *)
Definition after_step (st : pstate) (c : N) : option pstate :=
  match pmode st with
  | MEnd _ => if is_ws c then Some st else None
  | MAfter =>
      if is_ws c then Some st
      else match stack st with
           | FArr acc :: rest =>
               if c =? 44 then Some (PState (stack st) MValue)
               else if c =? 93 then close_array (stack st)
               else None
           | FObj acc None :: rest =>
               if c =? 44 then Some (PState (stack st) MKey)
               else if c =? 125 then close_object (stack st)
               else None
           | _ => None
           end
  | _ => None
  end.

(** The first code unit of a value. *)
Definition value_start (stk : list frame) (c : N) : option pstate :=
  if c =? 34 then Some (PState stk (MStr false []))
  else if c =? 123 then Some (PState (FObj [] None :: stk) MKeyOrClose)
  else if c =? 91 then Some (PState (FArr [] :: stk) MValueOrClose)
  else if c =? 116 then Some (PState stk (MLit (lit "rue") (JBool true)))
  else if c =? 102 then Some (PState stk (MLit (lit "alse") (JBool false)))
  else if c =? 110 then Some (PState stk (MLit (lit "ull") JNull))
  else match num_start c with
       | Some a => Some (PState stk (MNum a))
       | None => None
       end.

Definition pstep (st : pstate) (c : N) : option pstate :=
  let stk := stack st in
  match pmode st with
  | MValue => if is_ws c then Some st else value_start stk c
  | MValueOrClose =>
      if is_ws c then Some st
      else if c =? 93 then close_array stk
      else value_start stk c
  | MKeyOrClose =>
      if is_ws c then Some st
      else if c =? 34 then Some (PState stk (MStr true []))
      else if c =? 125 then close_object stk
      else None
  | MKey =>
      if is_ws c then Some st
      else if c =? 34 then Some (PState stk (MStr true []))
      else None
  | MColon =>
      if is_ws c then Some st
      else if c =? 58 then Some (PState stk MValue)
      else None
  | MAfter | MEnd _ => after_step st c
  | MStr k acc =>
      if c =? 34 then finish_string k (rev acc) stk
      else if c =? 92 then Some (PState stk (MEsc k acc))
      else if c <? 32 then None
      else Some (PState stk (MStr k (c :: acc)))
  | MEsc k acc =>
      let put x := Some (PState stk (MStr k (x :: acc))) in
      if c =? 34 then put 34
      else if c =? 92 then put 92
      else if c =? 47 then put 47
      else if c =? 98 then put 8
      else if c =? 102 then put 12
      else if c =? 110 then put 10
      else if c =? 114 then put 13
      else if c =? 116 then put 9
      else if c =? 117 then Some (PState stk (MHex k acc 3 0))
      else None
  | MHex k acc more code =>
      match hex_of c with
      | Some d =>
          match more with
          | O => Some (PState stk (MStr k ((16 * code + d) :: acc)))
          | S more' => Some (PState stk (MHex k acc more' (16 * code + d)))
          end
      | None => None
      end
  | MLit rest v =>
      match rest with
      | [] => None
      | c' :: rest' =>
          if c =? c' then
            match rest' with
            | [] => push_value v stk
            | _ => Some (PState stk (MLit rest' v))
            end
          else None
      end
  | MNum a =>
      match num_step a c with
      | Some a' => Some (PState stk (MNum a'))
      | None =>
          match num_finish a with
          | Some n =>
              match push_value (JNum n) stk with
              | Some st' => after_step st' c
              | None => None
              end
          | None => None
          end
      end
  end.

Fixpoint prun (st : pstate) (s : jsstring) : option pstate :=
  match s with
  | [] => Some st
  | c :: s' =>
      match pstep st c with
      | Some st' => prun st' s'
      | None => None
      end
  end.

(** The end of the text: the one value must be complete. *)
Definition pfinish (st : pstate) : option json :=
  match pmode st, stack st with
  | MEnd v, [] => Some v
  | MNum a, [] =>
      match num_finish a with
      | Some n => Some (JNum n)
      | None => None
      end
  | _, _ => None
  end.

(** [JSON.parse(text)]: [None] when it throws a [SyntaxError]. *)
Definition JSON_parse (text : jsstring) : option json :=
  match prun (PState [] MValue) text with
  | Some st => pfinish st
  | None => None
  end.

(** ** Exceptions, messages and the server state *)

Inductive exn :=
| SyntaxError                       (* JSON.parse, response.json() *)
| TypeError                         (* a property of null or undefined *)
| LlamaStatusError (status : nat)   (* new Error(`LLaMA server responded with ${response.status}`) *)
| IOError (message : jsstring).     (* a rejected fetch or read, a failed fs call *)

(** The messages the server sends on a WebSocket, before
    [JSON.stringify].  Timestamps are left out. *)
Inductive server_msg :=
| MsgInfo (client : string)         (* {type:'info', message, clientId, timestamp} *)
| MsgToken (token : json)           (* {type:'token', token} *)
| MsgDone                           (* {type:'done'} *)
| MsgError (error : exn)            (* {type:'error', message: error.message} *)
| MsgPing.                          (* {type:'ping', timestamp} *)

(** [ws.readyState] of an accepted socket (it is never CONNECTING). *)
Inductive ready_state := OPEN | CLOSING | CLOSED.

Record socket := Socket {
  clientId : string;
  readyState : ready_state;
  sent : list server_msg
}.

(** The body of a [POST /completion] request; an [undefined] prompt is
    dropped by [JSON.stringify]. *)
Record completion_request := CompletionRequest {
  prompt : jsvalue;
  n_predict : json;
  temperature : json;
  stream : bool
}.

Inductive await_point := AwaitFetch | AwaitRead.

(** A message handler suspended at an [await], with the socket its
    closure holds. *)
Record task := Task { t_ws : nat; t_await : await_point }.

Inductive level := INFO | DEBUG | WARN | ERROR.

Definition log_line : Type := level * string.

Record server := Server {
  sockets : gmap nat socket;              (* the WebSocket objects *)
  activeConnections : gmap string nat;    (* new Map(): clientId -> ws *)
  heartbeats : gset nat;                  (* sockets whose setInterval is armed *)
  tasks : gmap nat task;                  (* suspended message handlers *)
  requests : list completion_request;     (* requests sent to the LLaMA server *)
  next_ws : nat;
  next_task : nat;
  log : list log_line
}.

Definition initial : server := Server ∅ ∅ ∅ ∅ [] 0 0 [].

(** ** The monad of handler code *)

Definition M (A : Type) : Type := server -> (exn + A) * server.

Definition ret {A} (a : A) : M A := fun s => (inr a, s).

Definition throw {A} (e : exn) : M A := fun s => (inl e, s).

Definition bind {A B} (m : M A) (f : A -> M B) : M B :=
  fun s =>
    match m s with
    | (inl e, s') => (inl e, s')
    | (inr a, s') => f a s'
    end.

(** [try { body } catch (error) { handler }] *)
Definition try_catch {A} (body : M A) (handler : exn -> M A) : M A :=
  fun s =>
    match body s with
    | (inl e, s') => handler e s'
    | (inr a, s') => (inr a, s')
    end.

#[global] Instance M_ret : MRet M := @ret.
#[global] Instance M_bind : MBind M := fun A B f m => bind m f.

Definition get : M server := fun s => (inr s, s).

Definition modify (f : server -> server) : M unit := fun s => (inr tt, f s).

(** A result that is a value or a thrown exception, run in [M]. *)
Definition lift {A} (r : exn + A) : M A :=
  match r with
  | inl e => throw e
  | inr a => ret a
  end.

(** [list.forEach(callback)] *)
Fixpoint forEach {A} (l : list A) (callback : A -> M unit) : M unit :=
  match l with
  | [] => ret tt
  | x :: l' => callback x;; forEach l' callback
  end.

(** [JSON.parse(text)] as a statement. *)
Definition parse (text : jsstring) : M json :=
  match JSON_parse text with
  | Some v => ret v
  | None => throw SyntaxError
  end.

(** [v.k] for one of the property names the server reads ([type],
    [message], [maxTokens], [temperature], [content], [tokens_used]); no
    prototype defines them, so only the members of an object answer. *)
Definition get_prop (v : json) (k : string) : exn + jsvalue :=
  match v with
  | JNull => inl TypeError
  | JObj ms => inr (lookup_member (lit k) ms)
  | _ => inr None
  end.

Definition prop (v : json) (k : string) : M jsvalue := lift (get_prop v k).

(** ** The logger and the socket *)

Definition set_log (l : list log_line) (s : server) : server :=
  Server (sockets s) (activeConnections s) (heartbeats s) (tasks s)
         (requests s) (next_ws s) (next_task s) l.

Definition set_sockets (m : gmap nat socket) (s : server) : server :=
  Server m (activeConnections s) (heartbeats s) (tasks s)
         (requests s) (next_ws s) (next_task s) (log s).

Definition set_tasks (m : gmap nat task) (s : server) : server :=
  Server (sockets s) (activeConnections s) (heartbeats s) m
         (requests s) (next_ws s) (next_task s) (log s).

(** [logger.log(level, message, data)]: the line is kept, the data is not. *)
Definition logger_log (lv : level) (message : string) : M unit :=
  modify (fun s => set_log (log s ++ [(lv, message)]) s).

Definition logger_info := logger_log INFO.
Definition logger_debug := logger_log DEBUG.
Definition logger_error := logger_log ERROR.

(** What [ws.send] does to the socket: the message goes out when the
    socket is open and is discarded otherwise. *)
Definition deliver (msgs : list server_msg) (w : socket) : socket :=
  match readyState w with
  | OPEN => Socket (clientId w) OPEN (sent w ++ msgs)
  | _ => w
  end.

(** [ws.send(JSON.stringify(m))] *)
Definition ws_send (k : nat) (m : server_msg) : M unit :=
  modify (fun s => set_sockets (alter (deliver [m]) k (sockets s)) s).

(** ** The stream loop of the [chat] branch *)

Definition is_string (v : jsvalue) (s : string) : bool :=
  match v with
  | Some (JStr x) => jsstring_eqb x (lit s)
  | _ => false
  end.

(** The callback of [chunk.split('\n').forEach(line => ...)]. *)
Definition on_line (k : nat) (cid : string) (line : jsstring) : M unit :=
  if startsWith (lit "data: ") line then
    let dataStr := substring_from 6 line in
    if jsstring_eqb dataStr (lit "[DONE]") then
      ws_send k MsgDone;;
      logger_debug ("Stream completed for " +:+ cid)
    else
      try_catch
        (jsonData ← parse dataStr;
         content ← prop jsonData "content";
         if truthy content then
           match content with
           | Some token => ws_send k (MsgToken token)
           | None => ret tt
           end
         else ret tt)
        (fun e => logger_error "Error parsing stream data:")
  else ret tt.

(** One turn of the [while (true)] loop after [reader.read()] gave a
    chunk, decoded by a fresh [TextDecoder]. *)
Definition on_chunk (k : nat) (cid : string) (chunk : jsstring) : M unit :=
  logger_debug ("Stream chunk for " +:+ cid +:+ ":");;
  forEach (split LF chunk) (on_line k cid).

(** ** The WebSocket handlers *)

(** The [catch (error)] block of the message handler. *)
Definition catch_block (k : nat) (cid : string) (error : exn) : M unit :=
  logger_error ("WebSocket error for " +:+ cid +:+ ":");;
  ws_send k (MsgError error).

(** The handler suspends at an [await]. *)
Definition suspend (k : nat) (a : await_point) : M unit :=
  modify (fun s =>
    Server (sockets s) (activeConnections s) (heartbeats s)
           (<[next_task s := Task k a]> (tasks s))
           (requests s) (next_ws s) (S (next_task s)) (log s)).

(** The suspended handler [t] moves to another [await]. *)
Definition await_at (t : nat) (a : await_point) : M unit :=
  modify (fun s =>
    set_tasks (alter (fun tk => Task (t_ws tk) a) t (tasks s)) s).

(** The handler [t] returns. *)
Definition finish (t : nat) : M unit :=
  modify (fun s => set_tasks (delete t (tasks s)) s).

(** [fetch(url, {method:'POST', body: JSON.stringify(rq)})]: the request
    leaves. *)
Definition send_request (rq : completion_request) : M unit :=
  modify (fun s =>
    Server (sockets s) (activeConnections s) (heartbeats s) (tasks s)
           (requests s ++ [rq]) (next_ws s) (next_task s) (log s)).

Definition default_n_predict : json := JNum (num_of_N 200).
Definition default_temperature : json := JNum (Number false 7 (-1)).

(** [ws.on('message', async (message) => ...)] up to [await fetch(...)];
    [message] is [message.toString()]. *)
Definition on_message (k : nat) (message : jsstring) : M unit :=
  s ← get;
  match sockets s !! k with
  | None => ret tt
  | Some w =>
      let cid := clientId w in
      try_catch
        (data ← parse message;
         logger_debug ("WebSocket message from " +:+ cid +:+ ":");;
         ty ← prop data "type";
         if is_string ty "chat" then
           msg ← prop data "message";
           maxTokens ← prop data "maxTokens";
           temp ← prop data "temperature";
           send_request
             (CompletionRequest msg
                (or_default maxTokens default_n_predict)
                (or_default temp default_temperature)
                true);;
           suspend k AwaitFetch
         else ret tt)
        (catch_block k cid)
  end.

(** How the promise of [fetch] settles: rejected, or a response with its
    status and whether [response.body] is a stream (it is [null] for a
    response without body). *)
Inductive fetch_result :=
| FetchRejected (e : exn)
| FetchResponse (status : nat) (has_body : bool).

Definition response_ok (status : nat) : bool :=
  (200 <=? status)%nat && (status <=? 299)%nat.

(** From [await fetch(...)] to the first [await reader.read()]. *)
Definition on_fetch (t : nat) (r : fetch_result) : M unit :=
  s ← get;
  match tasks s !! t with
  | Some (Task k AwaitFetch) =>
      let cid := default EmptyString (clientId <$> sockets s !! k) in
      try_catch
        (match r with
         | FetchRejected e => throw e
         | FetchResponse status has_body =>
             if negb (response_ok status) then throw (LlamaStatusError status)
             else if negb has_body then throw TypeError
             else await_at t AwaitRead
         end)
        (fun error => finish t;; catch_block k cid error)
  | _ => ret tt
  end.

(** How [reader.read()] settles. *)
Inductive read_result :=
| ReadRejected (e : exn)
| ReadDone                          (* {done: true} *)
| ReadChunk (chunk : jsstring).     (* {done: false, value}, decoded *)

(** One turn of [while (true) { const {done, value} = await reader.read(); ... }]. *)
Definition on_read (t : nat) (r : read_result) : M unit :=
  s ← get;
  match tasks s !! t with
  | Some (Task k AwaitRead) =>
      let cid := default EmptyString (clientId <$> sockets s !! k) in
      try_catch
        (match r with
         | ReadRejected e => throw e
         | ReadDone => finish t
         | ReadChunk chunk => on_chunk k cid chunk
         end)
        (fun error => finish t;; catch_block k cid error)
  | _ => ret tt
  end.

(** [wss.on('connection', (ws, req) => ...)]; [cid] is the identifier
    drawn from the clock and [Math.random()]. *)
Definition on_connection (cid : string) : M unit :=
  s ← get;
  let k := next_ws s in
  modify (fun s =>
    Server (<[k := Socket cid OPEN []]> (sockets s))
           (<[cid := k]> (activeConnections s))
           (heartbeats s) (tasks s) (requests s) (S k) (next_task s) (log s));;
  logger_info ("New WebSocket client connected: " +:+ cid);;
  ws_send k (MsgInfo cid);;
  modify (fun s =>
    Server (sockets s) (activeConnections s) ({[k]} ∪ heartbeats s)
           (tasks s) (requests s) (next_ws s) (next_task s) (log s)).

(** The socket leaves the OPEN state (the closing handshake began). *)
Definition on_closing (k : nat) : M unit :=
  modify (fun s =>
    set_sockets
      (alter (fun w => match readyState w with
                       | OPEN => Socket (clientId w) CLOSING (sent w)
                       | _ => w
                       end) k (sockets s)) s).

(** The two [ws.on('close', ...)] listeners, run when the socket has
    become CLOSED. *)
Definition on_close (k : nat) : M unit :=
  s ← get;
  match sockets s !! k with
  | None => ret tt
  | Some w =>
      let cid := clientId w in
      modify (fun s =>
        Server (<[k := Socket cid CLOSED (sent w)]> (sockets s))
               (delete cid (activeConnections s))
               (heartbeats s) (tasks s) (requests s)
               (next_ws s) (next_task s) (log s));;
      logger_info ("WebSocket client disconnected: " +:+ cid);;
      modify (fun s =>
        Server (sockets s) (activeConnections s) (heartbeats s ∖ {[k]})
               (tasks s) (requests s) (next_ws s) (next_task s) (log s))
  end.

(** [ws.on('error', ...)] *)
Definition on_error (k : nat) : M unit :=
  s ← get;
  match sockets s !! k with
  | None => ret tt
  | Some w => logger_error ("WebSocket error for " +:+ clientId w +:+ ":")
  end.

(** The callback of [setInterval(..., 30000)] of socket [k]; a cleared
    interval does not fire. *)
Definition on_heartbeat (k : nat) : M unit :=
  s ← get;
  if bool_decide (k ∈ heartbeats s) then
    match sockets s !! k with
    | Some w =>
        match readyState w with
        | OPEN => ws_send k MsgPing
        | _ => ret tt
        end
    | None => ret tt
    end
  else ret tt.

(** ** The event loop *)

Inductive event :=
| EvConnection (cid : string)
| EvMessage (k : nat) (message : jsstring)
| EvFetch (t : nat) (r : fetch_result)
| EvRead (t : nat) (r : read_result)
| EvClosing (k : nat)
| EvClose (k : nat)
| EvError (k : nat)
| EvHeartbeat (k : nat).

Definition handle (e : event) : M unit :=
  match e with
  | EvConnection cid => on_connection cid
  | EvMessage k message => on_message k message
  | EvFetch t r => on_fetch t r
  | EvRead t r => on_read t r
  | EvClosing k => on_closing k
  | EvClose k => on_close k
  | EvError k => on_error k
  | EvHeartbeat k => on_heartbeat k
  end.

(** The events in the order the loop takes them; an exception that no
    handler catches ends the run. *)
Definition run (es : list event) : M unit := forEach es handle.

(** The state after a computation. *)
Definition exec {A} (m : M A) (s : server) : server := snd (m s).

Definition sent_to (k : nat) (s : server) : list server_msg :=
  match sockets s !! k with
  | Some w => sent w
  | None => []
  end.

(** ** The HTTP handlers *)

(** The body of a response: [res.json(value)], or [res.json({error:
    error.message})]. *)
Inductive response_body :=
| BodyJson (value : json)
| BodyError (error : exn).

Record http_response := Response { status : nat; body : response_body }.

(** An object literal as [JSON.stringify] writes it: a property whose
    value is [undefined] is left out. *)
Definition object (ms : list (string * jsvalue)) : json :=
  JObj (omap (fun m => match snd m with
                       | Some v => Some (lit (fst m), v)
                       | None => None
                       end) ms).

(** How a request to the completion endpoint ends: [fetch] rejects, or
    the response arrives with its status and body text. *)
Inductive completion_outcome :=
| CompletionRejected (e : exn)
| CompletionResponse (status : nat) (text : jsstring).

Section Chat.

(** The LLaMA server, as seen from [POST /api/chat]. *)
Variable completion : completion_request -> completion_outcome.

(** [await fetch(...)] followed by [await response.json()] *)
Definition fetch_json (rq : completion_request) : M json :=
  send_request rq;;
  match completion rq with
  | CompletionRejected e => throw e
  | CompletionResponse _ text => parse text
  end.

(** [app.post('/api/chat', async (req, res) => ...)]; [req_body] is
    [req.body], [undefined] when no JSON body was parsed. *)
Definition api_chat (req_body : jsvalue) : M http_response :=
  try_catch
    (b ← match req_body with
         | Some b => ret b
         | None => throw TypeError
         end;
     message ← prop b "message";
     maxTokens ← prop b "maxTokens";
     temp ← prop b "temperature";
     match message with
     | None | Some JNull => throw TypeError     (* message.length *)
     | Some _ => ret tt
     end;;
     logger_info "Chat request received:";;
     data ← fetch_json
              (CompletionRequest message
                 (default default_n_predict maxTokens)
                 (default default_temperature temp)
                 false);
     tokens_used ← prop data "tokens_used";
     content ← prop data "content";
     logger_info "Chat response generated:";;
     ret (Response 200
            (BodyJson (object [("response", content);
                               ("tokens_used", tokens_used)]))))
    (fun error =>
       logger_error "Chat error:";;
       ret (Response 500 (BodyError error))).

End Chat.

(** What the body parsers leave in [req.body] when the upload handler
    runs.  The global [express.json(...)] (line 101) comes before the
    route: a request it reads as JSON arrives with the parsed value, an
    object or an array, and [express.raw] leaves it alone.  A body that
    [express.raw({type: '*/*'})] reads arrives as a [Buffer].  When
    neither reads a body (there is none, or the request names no content
    type) [req.body] is [undefined]. *)
Inductive upload_body :=
| BodyUndefined
| BodyBuffer (buffer : list Byte.byte)
| BodyParsed (value : json).

Section Upload.

(** [Buffer.prototype.toString()]: the bytes decoded as UTF-8. *)
Variable toString : list Byte.byte -> jsstring.

(** [Number.prototype.toString()] of the double a JSON number denotes. *)
Variable Number_toString : number -> jsstring.

(** [ToString(v)] for a value that [JSON.parse] made.  An array is joined
    with commas as [Array.prototype.toString] does, a [null] element as
    the empty string.  An object is [[object Object]], unless it has a
    member [toString] of its own: that member is no function, and the
    conversion throws a [TypeError]. *)
Fixpoint Value_toString (v : json) : exn + jsstring :=
  match v with
  | JNull => inr (lit "null")
  | JBool b => inr (lit (if b then "true" else "false"))
  | JNum n => inr (Number_toString n)
  | JStr s => inr s
  | JArr items =>
      (fix join (l : list json) : exn + jsstring :=
         match l with
         | [] => inr []
         | x :: l' =>
             match (match x with
                    | JNull => inr []
                    | _ => Value_toString x
                    end) with
             | inl e => inl e
             | inr first =>
                 match l' with
                 | [] => inr first
                 | _ :: _ =>
                     match join l' with
                     | inl e => inl e
                     | inr others => inr (first ++ lit "," ++ others)
                     end
                 end
             end
         end) items
  | JObj members =>
      match lookup_member (lit "toString") members with
      | Some _ => inl TypeError
      | None => inr (lit "[object Object]")
      end
  end.

(** [req.body.toString()] *)
Definition body_toString (req_body : upload_body) : exn + jsstring :=
  match req_body with
  | BodyUndefined => inl TypeError
  | BodyBuffer buffer => inr (toString buffer)
  | BodyParsed JNull => inl TypeError
  | BodyParsed value => Value_toString value
  end.

(** [app.post('/api/upload', express.raw(...), async (req, res) => ...)];
    [x_filename] is [req.headers['x-filename']] and [req_body] is
    [req.body]. *)
Definition api_upload (x_filename : option jsstring)
    (req_body : upload_body) : M http_response :=
  try_catch
    (let filename :=
       or_default (JStr <$> x_filename) (JStr (lit "upload.txt")) in
     content ← lift (body_toString req_body);
     logger_info "File upload received:";;
     ret (Response 200
            (BodyJson (object
               [("success", Some (JBool true));
                ("filename", Some filename);
                ("size", Some (JNum (num_of_N (N.of_nat (length content)))));
                ("content", Some (JStr (substring_to 1000 content)))]))))
    (fun error =>
       logger_error "Upload error:";;
       ret (Response 500 (BodyError error))).

End Upload.

(** The models directory as [fs] shows it: [fs.existsSync(modelsDir)],
    [fs.readdirSync(modelsDir)] and [fs.statSync(path.join(modelsDir,
    file)).size]. *)
Record fs_view := FsView {
  existsSync : bool;
  readdirSync : exn + list jsstring;
  statSync : jsstring -> exn + N
}.

(** [Math.round(n / d)] for integers [n] and [d > 0]: the floor of
    [n/d + 1/2].  For a file size below [2^53] and [d = 2^20] the
    division of doubles is exact, so this is the number the server
    computes. *)
Definition Math_round_div (n d : N) : N := (2 * n + d) / (2 * d).

Definition model_entry (file : jsstring) (size : N) : json :=
  object [("name", Some (JStr file));
          ("path", Some (JStr (lit "./../models/" ++ file)));
          ("size", Some (JNum (num_of_N size)));
          ("sizeMB", Some (JNum (num_of_N (Math_round_div size (1024 * 1024)))))].

(** [files.forEach(file => { if (file.endsWith('.gguf')) {...
    models.push({...}) } })], with the array [models] threaded through. *)
Fixpoint push_models (fs : fs_view) (files : list jsstring)
    (models : list json) : M (list json) :=
  match files with
  | [] => ret models
  | file :: files' =>
      if endsWith (lit ".gguf") file then
        size ← lift (statSync fs file);
        push_models fs files' (models ++ [model_entry file size])
      else push_models fs files' models
  end.

(** [app.get('/api/models', (req, res) => ...)] *)
Definition api_models (fs : fs_view) : M http_response :=
  try_catch
    (models ← (if existsSync fs then
                 files ← lift (readdirSync fs);
                 push_models fs files []
               else ret []);
     ret (Response 200 (BodyJson (object [("models", Some (JArr models))]))))
    (fun error =>
       logger_error "Error reading models:";;
       ret (Response 500 (BodyError error))).

(** ** What the specification calls the payloads of a stream

    These definitions follow the words of the specification; the lemmas
    below compare them with [on_line]. *)

(** The payload of an event-stream line: what follows the [data: ] marker. *)
Definition payload (line : jsstring) : option jsstring :=
  if startsWith (lit "data: ") line then Some (substring_from 6 line) else None.

Definition sentinel : jsstring := lit "[DONE]".

Definition is_sentinel (line : jsstring) : bool :=
  match payload line with
  | Some p => jsstring_eqb p sentinel
  | None => false
  end.

(** The generated text a structured payload carries. *)
Definition content_of (p : jsstring) : jsvalue :=
  match JSON_parse p with
  | Some (JObj ms) => lookup_member (lit "content") ms
  | _ => None
  end.

(** The token a line gives rise to: the content of its payload, when the
    payload is not the sentinel and the content is truthy. *)
Definition line_token (line : jsstring) : option json :=
  match payload line with
  | Some p =>
      if jsstring_eqb p sentinel then None
      else match content_of p with
           | Some v => if truthy (Some v) then Some v else None
           | None => None
           end
  | None => None
  end.

Definition line_msgs (line : jsstring) : list server_msg :=
  if is_sentinel line then [MsgDone]
  else match line_token line with
       | Some v => [MsgToken v]
       | None => []
       end.

(** The lines the relay sees: every chunk is split on its own. *)
Definition lines_of (chunks : list jsstring) : list jsstring :=
  concat (map (split LF) chunks).

(** The [read] events of a stream. *)
Definition reads (t : nat) (chunks : list jsstring) : list event :=
  map (fun c => EvRead t (ReadChunk c)) chunks.

(** The number of handlers suspended on socket [k]: its generations in
    flight. *)
Definition generations (k : nat) (s : server) : nat :=
  size (filter (fun p : nat * task => t_ws (snd p) = k) (tasks s)).

(** ** Notions used in the statements and proofs *)

(** Unfolds the operations of [M]. *)
Ltac munfold :=
  unfold prop, parse, logger_info, logger_debug, logger_error, logger_log,
    ws_send in *;
  unfold lift in *;
  unfold mbind, mret, M_bind, M_ret, bind, ret, throw, try_catch, modify,
    get in *.

(** Two states that differ at most in the requests sent upstream. *)
Definition alike (s1 s2 : server) : Prop :=
  sockets s1 = sockets s2
  /\ activeConnections s1 = activeConnections s2
  /\ heartbeats s1 = heartbeats s2
  /\ tasks s1 = tasks s2
  /\ next_ws s1 = next_ws s2
  /\ next_task s1 = next_task s2
  /\ log s1 = log s2.

(** Neither the outcome of [m] nor the state it leaves depends on the
    requests that were sent upstream. *)
Definition oblivious {A} (m : M A) : Prop :=
  forall s1 s2, alike s1 s2 ->
    fst (m s1) = fst (m s2) /\ alike (snd (m s1)) (snd (m s2)).

(** A state update keeps states alike. *)
Ltac alike_update :=
  let H := fresh "H" in
  intros ? ? H; unfold alike in *;
  destruct H as (? & ? & ? & ? & ? & ? & ?);
  unfold set_log, set_sockets, set_tasks; simpl;
  repeat split; congruence.

(** The bodies [express.json()] (line 101) hands over to a handler: in
    its default, strict mode an object or an array; any other JSON text
    is refused with status 400 before the handler runs. *)
Definition strict_json (b : json) : bool :=
  match b with
  | JObj _ | JArr _ => true
  | _ => false
  end.

(** [m] returns: it never ends in an uncaught exception. *)
Definition returns {A} (m : M A) : Prop :=
  forall s, exists a s', m s = (inr a, s').

(** The state after [msgs] were sent on socket [k] and [lines] logged. *)
Definition emit (k : nat) (msgs : list server_msg) (lines : list log_line)
    (s : server) : server :=
  Server (alter (deliver msgs) k (sockets s)) (activeConnections s)
         (heartbeats s) (tasks s) (requests s) (next_ws s) (next_task s)
         (log s ++ lines).

(** The log lines of one event-stream line. *)
Definition line_logs (cid : string) (line : jsstring) : list log_line :=
  match payload line with
  | None => []
  | Some p =>
      if jsstring_eqb p sentinel then [(DEBUG, "Stream completed for " +:+ cid)]
      else match JSON_parse p with
           | None | Some JNull => [(ERROR, "Error parsing stream data:")]
           | Some _ => []
           end
  end.

(** The log lines of a chunk. *)
Definition chunk_logs (cid : string) (chunk : jsstring) : list log_line :=
  (DEBUG, "Stream chunk for " +:+ cid +:+ ":")
    :: flat_map (line_logs cid) (split LF chunk).

(** The client identifier the closure of socket [k] holds. *)
Definition cid_of (k : nat) (s : server) : string :=
  default EmptyString (clientId <$> sockets s !! k).

(** ** Texts for the examples *)

(** [s] between double quotes. *)
Definition quoted (s : string) : jsstring := 34 :: lit s ++ [34].

(** The line [data: p]. *)
Definition data_line (p : jsstring) : jsstring := lit "data: " ++ p.

(** The payload [{"content":"text"}]. *)
Definition content_payload (text : string) : jsstring :=
  lit "{" ++ quoted "content" ++ lit ":" ++ quoted text ++ lit "}".

(** The message [{"type":"ty"}]. *)
Definition typed_message (ty : string) : jsstring :=
  lit "{" ++ quoted "type" ++ lit ":" ++ quoted ty ++ lit "}".

(** One client is connected and its [chat] request is streaming: the
    handler [0] waits for the next chunk. *)
Definition streaming0 : server :=
  exec (run [EvConnection "c1";
             EvMessage 0 (typed_message "chat");
             EvFetch 0 (FetchResponse 200 true)]) initial.

(** The identifiers of the suspended handlers lie below the next one. *)
Definition fresh (s : server) : Prop :=
  forall t, is_Some (tasks s !! t) -> (t < next_task s)%nat.

Definition preserves {A} (P : server -> Prop) (m : M A) : Prop :=
  forall s, P s -> P (snd (m s)).

(** [data.k] once [data] is known not to be [null]. *)
Definition member (data : json) (k : string) : jsvalue :=
  match get_prop data k with
  | inr v => v
  | inl _ => None
  end.

(** The request the [chat] branch sends for the message [data]. *)
Definition stream_request (data : json) : completion_request :=
  CompletionRequest (member data "message")
    (or_default (member data "maxTokens") default_n_predict)
    (or_default (member data "temperature") default_temperature)
    true.

(** The request body [{"message":"hi","maxTokens":10,"temperature":0.5}]. *)
Definition hi_body_text : jsstring :=
  lit "{" ++ quoted "message" ++ lit ":" ++ quoted "hi" ++ lit ","
    ++ quoted "maxTokens" ++ lit ":10,"
    ++ quoted "temperature" ++ lit ":0.5}".

(** The response body [{"content":"hello","tokens_used":3}]. *)
Definition hello_text : jsstring :=
  lit "{" ++ quoted "content" ++ lit ":" ++ quoted "hello" ++ lit ","
    ++ quoted "tokens_used" ++ lit ":3}".

Definition hello_data : json :=
  JObj [(lit "content", JStr (lit "hello"));
        (lit "tokens_used", JNum (num_of_N 3))].

(** An entry of the list of models, as the specification names its
    parts. *)
Definition listed (name : jsstring) (size sizeMB : N) : json :=
  JObj [(lit "name", JStr name);
        (lit "path", JStr (lit "./../models/" ++ name));
        (lit "size", JNum (num_of_N size));
        (lit "sizeMB", JNum (num_of_N sizeMB))].

(** [m] is an integer nearest to [size / 1048576]. *)
Definition nearest_MB (m size : N) : Prop :=
  (Z.abs (2 * (Z.of_N m * 1048576 - Z.of_N size)) <= 1048576)%Z.

Definition is_gguf (file : jsstring) : Prop := endsWith (lit ".gguf") file = true.

#[local] Instance is_gguf_dec file : Decision (is_gguf file) :=
  bool_eq_dec (endsWith (lit ".gguf") file) true.

(** The size [fs.statSync] reports, [0] when it throws. *)
Definition size_of (fs : fs_view) (file : jsstring) : N :=
  match statSync fs file with
  | inr z => z
  | inl _ => 0
  end.

(** ** The command line and the configuration

    The first lines of [server.js] read [process.argv.slice(2)] and the
    environment into [config]; [cli.js] is the caller that builds the
    argument list. *)

(** [s.replace(pat, '')] for a string pattern: the first occurrence of
    [pat] is removed. *)
Fixpoint remove_first (pat s : jsstring) : jsstring :=
  if startsWith pat s then drop (length pat) s
  else match s with
       | [] => []
       | c :: s' => c :: remove_first pat s'
       end.

(** The names a plain object inherits from [Object.prototype]. *)
Definition Object_prototype : list jsstring :=
  map lit ["constructor"; "__defineGetter__"; "__defineSetter__";
           "hasOwnProperty"; "__lookupGetter__"; "__lookupSetter__";
           "isPrototypeOf"; "propertyIsEnumerable"; "toString"; "valueOf";
           "__proto__"; "toLocaleString"].

(** [parsedArgs[key] = value] on the plain object [parsedArgs = {}], of
    which the map holds the own properties.  Under the name [__proto__]
    nothing is stored: the assignment reaches the setter inherited from
    [Object.prototype], which ignores a string and [undefined].  Under
    any other name, an inherited one such as [constructor] included, the
    assignment makes or overwrites an own property. *)
Definition assign (key : jsstring) (value : option jsstring)
    (parsedArgs : gmap jsstring (option jsstring)) : gmap jsstring (option jsstring) :=
  if jsstring_eqb key (lit "__proto__") then parsedArgs
  else <[key := value]> parsedArgs.

(** The loop
    [for (let i = 0; i < args.length; i += 2)
       if (args[i].startsWith('--')) parsedArgs[args[i].replace('--', '')] = args[i + 1]],
    from position [i] on; the value of a key is [None] where
    [args[i + 1]] is [undefined]. *)
Fixpoint parse_argv (args : list jsstring)
    (parsedArgs : gmap jsstring (option jsstring)) : gmap jsstring (option jsstring) :=
  match args with
  | [] => parsedArgs
  | [a] =>
      if startsWith (lit "--") a
      then assign (remove_first (lit "--") a) None parsedArgs
      else parsedArgs
  | a :: v :: rest =>
      parse_argv rest
        (if startsWith (lit "--") a
         then assign (remove_first (lit "--") a) (Some v) parsedArgs
         else parsedArgs)
  end.

(** What reading [parsedArgs[k]] gives for any name [k]: the string of
    an own property, [undefined], or a function or object that
    [Object.prototype] holds under this name. *)
Inductive arg_value :=
| ArgString (v : jsstring)
| ArgUndefined
| ArgInherited.

Definition read_arg (parsedArgs : gmap jsstring (option jsstring))
    (k : jsstring) : arg_value :=
  match parsedArgs !! k with
  | Some (Some v) => ArgString v
  | Some None => ArgUndefined
  | None => if bool_decide (k ∈ Object_prototype) then ArgInherited
            else ArgUndefined
  end.

(** [parsedArgs.k], [parsedArgs['k']] for one of the names [config]
    reads; [Object.prototype] has none of them, so only the own
    properties answer. *)
Definition parsed (parsedArgs : gmap jsstring (option jsstring)) (k : string)
  : option jsstring :=
  default None (parsedArgs !! lit k).

(** A value of the configuration: a string from the command line or the
    environment, or a number from the defaults. *)
Inductive setting :=
| SStr (s : jsstring)
| SNum (n : N).

(** [a || e || d] for strings [a] and [e] that may be [undefined]. *)
Definition pick (a e : option jsstring) (d : setting) : setting :=
  match a with
  | Some (c :: a') => SStr (c :: a')
  | _ =>
      match e with
      | Some (c :: e') => SStr (c :: e')
      | _ => d
      end
  end.

(** [v === 'true'] *)
Definition is_true (v : option jsstring) : bool :=
  match v with
  | Some x => jsstring_eqb x (lit "true")
  | None => false
  end.

Record config := Config {
  port : setting;
  llamaPort : setting;
  wsPort : setting;
  model : setting;
  ctxSize : setting;
  nGpuLayers : setting;
  parallel : setting;
  host : setting;
  logFile : setting;
  verbose : bool
}.

(** [const config = {...}] of [server.js]; [env] is [process.env]. *)
Definition load_config (parsedArgs : gmap jsstring (option jsstring))
    (env : string -> option jsstring) : config :=
  Config
    (pick (parsed parsedArgs "port") (env "PORT") (SNum 3000))
    (pick (parsed parsedArgs "llama-port") (env "LLAMA_PORT") (SNum 8080))
    (pick (parsed parsedArgs "ws-port") (env "WS_PORT") (SNum 8081))
    (pick (parsed parsedArgs "model") (env "MODEL")
       (SStr (lit "./../models/Llama-3.2-1B-Instruct-Q4_K_M.gguf")))
    (pick (parsed parsedArgs "ctx-size") (env "CTX_SIZE") (SNum 4096))
    (pick (parsed parsedArgs "gpu-layers") (env "GPU_LAYERS") (SNum 20))
    (pick (parsed parsedArgs "parallel") (env "PARALLEL") (SNum 4))
    (pick (parsed parsedArgs "host") (env "HOST") (SStr (lit "0.0.0.0")))
    (pick (parsed parsedArgs "log-file") (env "LOG_FILE")
       (SStr (lit "./logs/openchatmobile.log")))
    (is_true (parsed parsedArgs "verbose") || is_true (env "VERBOSE")).

(** [n.toString()] for an integer below [10^21]: its decimal digits. *)
Definition decimal (n : N) : jsstring :=
  lit (NilEmpty.string_of_uint (N.to_uint n)).

(** [v.toString()] *)
Definition toString (v : setting) : jsstring :=
  match v with
  | SStr s => s
  | SNum n => decimal n
  end.

(** The configuration [cli.js] starts the server with: numbers or strings
    where it calls [toString()], strings where it passes the value as it
    is, and the truth value of [config.verbose]. *)
Record cli_config := CliConfig {
  c_port : setting;
  c_llamaPort : setting;
  c_wsPort : setting;
  c_model : jsstring;
  c_ctxSize : setting;
  c_nGpuLayers : setting;
  c_parallel : setting;
  c_host : jsstring;
  c_logFile : jsstring;
  c_verbose : bool
}.

(** [startAsDaemon] of [cli.js]: the arguments after the script path in
    [spawn('node', [serverScript, ...])], that is, what
    [process.argv.slice(2)] is in the server. *)
Definition daemon_args (c : cli_config) : list jsstring :=
  [lit "--llama-port"; toString (c_llamaPort c);
   lit "--port"; toString (c_port c);
   lit "--model"; c_model c;
   lit "--ctx-size"; toString (c_ctxSize c);
   lit "--gpu-layers"; toString (c_nGpuLayers c);
   lit "--parallel"; toString (c_parallel c);
   lit "--host"; c_host c;
   lit "--log-file"; c_logFile c]
  ++ (if c_verbose c then [lit "--verbose"] else []).

(** The arguments [--k1 v1 ... --kn vn] of a list of options. *)
Definition option_args (options : list (jsstring * jsstring)) : list jsstring :=
  flat_map (fun o => [lit "--" ++ fst o; snd o]) options.

(** The settings of [config] with the option, the environment variable
    and the default of each, as the object literal lists them. *)
Definition settings_table : list ((config -> setting) * string * string * setting) :=
  [(port, "port", "PORT", SNum 3000);
   (llamaPort, "llama-port", "LLAMA_PORT", SNum 8080);
   (wsPort, "ws-port", "WS_PORT", SNum 8081);
   (model, "model", "MODEL",
    SStr (lit "./../models/Llama-3.2-1B-Instruct-Q4_K_M.gguf"));
   (ctxSize, "ctx-size", "CTX_SIZE", SNum 4096);
   (nGpuLayers, "gpu-layers", "GPU_LAYERS", SNum 20);
   (parallel, "parallel", "PARALLEL", SNum 4);
   (host, "host", "HOST", SStr (lit "0.0.0.0"));
   (logFile, "log-file", "LOG_FILE", SStr (lit "./logs/openchatmobile.log"))].

(** ** CORS *)

(** [s.includes(p)] *)
Fixpoint includes (p s : jsstring) : bool :=
  startsWith p s ||
  match s with
  | [] => false
  | _ :: s' => includes p s'
  end.

(** The [origin] function given to [cors]: [true] is
    [callback(null, true)], [false] is
    [callback(new Error('Not allowed by CORS'))]. *)
Definition cors_origin (origin : option jsstring) : bool :=
  negb (truthy (JStr <$> origin))
  || match origin with
     | Some o => includes (lit "localhost") o || includes (lit "127.0.0.1") o
     | None => false
     end.

(** ** The health endpoint *)

Definition setting_json (v : setting) : json :=
  match v with
  | SStr s => JStr s
  | SNum n => JNum (num_of_N n)
  end.

(** [app.get('/api/health', ...)]; [now] is [new Date().toISOString()]. *)
Definition api_health (cfg : config) (now : jsstring) : M http_response :=
  s ← get;
  ret (Response 200
         (BodyJson (object
            [("status", Some (JStr (lit "ok")));
             ("llama", Some (JStr (lit "running")));
             ("websocket",
              Some (object
                      [("connected",
                        Some (JNum (num_of_N (N.of_nat (size (activeConnections s))))));
                       ("port", Some (setting_json (wsPort cfg)))]));
             ("timestamp", Some (JStr now));
             ("config",
              Some (object
                      [("port", Some (setting_json (port cfg)));
                       ("llamaPort", Some (setting_json (llamaPort cfg)));
                       ("wsPort", Some (setting_json (wsPort cfg)));
                       ("model", Some (setting_json (model cfg)));
                       ("host", Some (setting_json (host cfg)))]))]))).

(** [health.websocket.connected] *)
Definition connected_count (r : http_response) : jsvalue :=
  match body r with
  | BodyJson v => w ← member v "websocket"; member w "connected"
  | BodyError _ => None
  end.

(** The number of connections [GET /api/health] reports in state [s]. *)
Definition health_connected (cfg : config) (now : jsstring) (s : server) : jsvalue :=
  match fst (api_health cfg now s) with
  | inr r => connected_count r
  | inl _ => None
  end.

(** The request [POST /api/chat] sends for the body [b]. *)
Definition chat_request (b : json) : completion_request :=
  CompletionRequest (member b "message")
    (default default_n_predict (member b "maxTokens"))
    (default default_temperature (member b "temperature"))
    false.

(** ** Notions for the life of a connection *)

(** The state the server reaches from its start through the events [es]. *)
Definition reach (es : list event) : server := exec (run es) initial.

(** The events that are neither a new connection nor the closing or the
    close of one: messages, settled promises, socket errors, timers. *)
Definition is_traffic (e : event) : bool :=
  match e with
  | EvConnection _ | EvClosing _ | EvClose _ => false
  | _ => true
  end.

(** From [s0] to [s] only messages were sent, and only on socket [k]. *)
Definition sends_only (k : nat) (s0 s : server) : Prop :=
  (exists msgs, sockets s = alter (deliver msgs) k (sockets s0))
  /\ activeConnections s = activeConnections s0
  /\ heartbeats s = heartbeats s0
  /\ next_ws s = next_ws s0.

(** What may become of a socket: it keeps its client, what was sent on it
    stays sent, and once it has left the OPEN state it does not come back
    and nothing more is sent on it. *)
Definition evolves (w w' : socket) : Prop :=
  clientId w' = clientId w
  /\ sent w `prefix_of` sent w'
  /\ (readyState w <> OPEN -> sent w' = sent w /\ readyState w' <> OPEN).

(** The sockets lie below the next socket identifier. *)
Definition bounded (s : server) : Prop :=
  forall k, is_Some (sockets s !! k) -> (k < next_ws s)%nat.

(** Every registered identifier names a socket that exists, carries this
    identifier and is not closed. *)
Definition registry_sound (s : server) : Prop :=
  forall cid k,
    activeConnections s !! cid = Some k ->
    exists w, sockets s !! k = Some w /\ clientId w = cid /\ readyState w <> CLOSED.

(** A heartbeat timer is armed exactly for the sockets that exist and
    are not closed. *)
Definition timers_sound (s : server) : Prop :=
  forall k,
    k ∈ heartbeats s <->
    exists w, sockets s !! k = Some w /\ readyState w <> CLOSED.

(** The chunk ends with a line break. *)
Definition ends_line (chunk : jsstring) : Prop := exists a, chunk = a ++ [LF].

Definition CR : N := 13.

(** The payload [{"content":"text"}] for any text between the quotes. *)
Definition content_text (text : jsstring) : jsstring :=
  lit "{" ++ quoted "content" ++ lit ":" ++ [34] ++ text ++ [34] ++ lit "}".

(** A code unit that stands for itself inside a JSON string. *)
Definition plain (c : N) : Prop := 32 <= c /\ c <> 34 /\ c <> 92.

(** * Properties *)

#[local] Arguments truthy : simpl never.

(** ** The embedding at work *)

Example parse_content_payload :
  JSON_parse (content_payload "Hi") =
  Some (JObj [(lit "content", JStr (lit "Hi"))]).
Proof. vm_compute. reflexivity. Qed.

Example parse_nested :
  JSON_parse (lit "{" ++ quoted "a" ++ lit ": [1, -2.50e+3, true, null, {}, []] } ") =
  Some (JObj [(lit "a",
               JArr [JNum (Number false 1 0); JNum (Number true 250 1);
                     JBool true; JNull; JObj []; JArr []])]).
Proof. vm_compute. reflexivity. Qed.

Example parse_escapes :
  JSON_parse (34 :: lit "a\n\u00e9\\" ++ [34]) = Some (JStr [97; 10; 233; 92]).
Proof. vm_compute. reflexivity. Qed.

Example parse_sentinel_fails : JSON_parse sentinel = None.
Proof. vm_compute. reflexivity. Qed.

Example parse_rejects :
  JSON_parse (lit "[1,]") = None /\ JSON_parse (lit "01") = None
  /\ JSON_parse (lit "tru") = None /\ JSON_parse (lit "{}x") = None
  /\ JSON_parse [] = None /\ JSON_parse (lit "{oops") = None.
Proof. vm_compute. repeat split; reflexivity. Qed.

Example last_member_wins :
  (v ← JSON_parse (lit "{" ++ quoted "content" ++ lit ":1," ++ quoted "content" ++ lit ":2}");
   match get_prop v "content" with inr c => c | inl _ => None end) =
  Some (JNum (Number false 2 0)).
Proof. vm_compute. reflexivity. Qed.

Example falsy_contents :
  truthy (Some (JStr [])) = false
  /\ truthy (JSON_parse (lit "0.0")) = false
  /\ truthy (JSON_parse (lit "-0")) = false
  /\ truthy (JSON_parse (lit "1e-400")) = false
  /\ truthy (JSON_parse (lit "1e-300")) = true
  /\ truthy (JSON_parse (lit "[]")) = true.
Proof. vm_compute. repeat split; reflexivity. Qed.

Example split_lines :
  split LF (lit "ab" ++ [LF] ++ lit "c" ++ [LF]) = [lit "ab"; lit "c"; []]
  /\ split LF [] = [[]].
Proof. vm_compute. split; reflexivity. Qed.

Example round_half_up :
  Math_round_div 1572864 (1024 * 1024) = 2
  /\ Math_round_div 1572863 (1024 * 1024) = 1
  /\ Math_round_div 524287 (1024 * 1024) = 0.
Proof. vm_compute. repeat split; reflexivity. Qed.

(** A whole exchange: connection, [chat], two chunks, a message that is
    not JSON in between, the end of the stream. *)
Example one_generation :
  sent_to 0
    (exec (run [EvConnection "c1";
                EvMessage 0 (typed_message "chat");
                EvFetch 0 (FetchResponse 200 true);
                EvRead 0 (ReadChunk (data_line (content_payload "x") ++ [LF; LF]
                                       ++ data_line (content_payload "y") ++ [LF; LF]));
                EvMessage 0 (lit "{");
                EvRead 0 (ReadChunk (data_line (content_payload "z") ++ [LF; LF]
                                       ++ data_line sentinel ++ [LF; LF]));
                EvRead 0 ReadDone]) initial) =
  [MsgInfo "c1"; MsgToken (JStr (lit "x")); MsgToken (JStr (lit "y"));
   MsgError SyntaxError; MsgToken (JStr (lit "z")); MsgDone].
Proof. vm_compute. reflexivity. Qed.

(** The upstream answers with an error status, or the read fails. *)
Example upstream_failures :
  sent_to 0
    (exec (run [EvConnection "c1";
                EvMessage 0 (typed_message "chat");
                EvFetch 0 (FetchResponse 503 true);
                EvMessage 0 (typed_message "chat");
                EvFetch 1 (FetchResponse 200 true);
                EvRead 1 (ReadRejected (IOError (lit "terminated")))]) initial) =
  [MsgInfo "c1"; MsgError (LlamaStatusError 503);
   MsgError (IOError (lit "terminated"))].
Proof. vm_compute. reflexivity. Qed.

Lemma returns_ret {A} (a : A) : returns (ret a).
Proof. intros s. by exists a, s. Qed.

Lemma returns_modify f : returns (modify f).
Proof. intros s. by exists tt, (f s). Qed.

Lemma returns_bind {A B} (m : M A) (f : A -> M B) :
  returns m -> (forall a, returns (f a)) -> returns (m ≫= f).
Proof.
  intros Hm Hf s. destruct (Hm s) as (a & s' & E).
  destruct (Hf a s') as (b & s'' & E').
  exists b, s''. unfold mbind, M_bind, bind. by rewrite E.
Qed.

Lemma returns_try_catch {A} (body : M A) (h : exn -> M A) :
  (forall e, returns (h e)) -> returns (try_catch body h).
Proof.
  intros Hh s. unfold try_catch.
  destruct (body s) as [[e | a] s']; [apply Hh | by exists a, s'].
Qed.

Lemma returns_forEach {A} (l : list A) (f : A -> M unit) :
  (forall x, returns (f x)) -> returns (forEach l f).
Proof.
  intros Hf. induction l as [| x l IH]; simpl.
  - apply returns_ret.
  - apply returns_bind; [apply Hf | intros _; apply IH].
Qed.

Lemma returns_logger lv msg : returns (logger_log lv msg).
Proof. apply returns_modify. Qed.

Lemma returns_ws_send k m : returns (ws_send k m).
Proof. apply returns_modify. Qed.

Lemma returns_catch_block k cid e : returns (catch_block k cid e).
Proof.
  apply returns_bind; [apply returns_logger | intros _; apply returns_ws_send].
Qed.

Lemma returns_on_line k cid line : returns (on_line k cid line).
Proof.
  unfold on_line. destruct (startsWith _ _); [| apply returns_ret].
  destruct (jsstring_eqb _ _).
  - apply returns_bind; [apply returns_ws_send | intros _; apply returns_logger].
  - apply returns_try_catch. intros e. apply returns_logger.
Qed.

Lemma returns_unit (m : M unit) s :
  returns m -> m s = (inr tt, exec m s).
Proof.
  intros H. destruct (H s) as ([] & s' & E). unfold exec. by rewrite E.
Qed.

Lemma returns_handle e : returns (handle e).
Proof.
  destruct e as [cid | k msg | t r | t r | k | k | k | k]; simpl.
  - unfold on_connection. apply returns_bind; [by intros s; exists s, s |].
    intros s. repeat (apply returns_bind; [| intros _]);
      first [apply returns_modify | apply returns_logger | apply returns_ws_send].
  - unfold on_message. apply returns_bind; [by intros s; exists s, s |].
    intros s. destruct (sockets s !! k); [| apply returns_ret].
    apply returns_try_catch, returns_catch_block.
  - unfold on_fetch. apply returns_bind; [by intros s; exists s, s |].
    intros s. destruct (tasks s !! t) as [[k []] |]; try apply returns_ret.
    apply returns_try_catch. intros e.
    apply returns_bind; [apply returns_modify | intros _; apply returns_catch_block].
  - unfold on_read. apply returns_bind; [by intros s; exists s, s |].
    intros s. destruct (tasks s !! t) as [[k []] |]; try apply returns_ret.
    apply returns_try_catch. intros e.
    apply returns_bind; [apply returns_modify | intros _; apply returns_catch_block].
  - apply returns_modify.
  - unfold on_close. apply returns_bind; [by intros s; exists s, s |].
    intros s. destruct (sockets s !! k); [| apply returns_ret].
    repeat (apply returns_bind; [| intros _]);
      first [apply returns_modify | apply returns_logger].
  - unfold on_error. apply returns_bind; [by intros s; exists s, s |].
    intros s. destruct (sockets s !! k); [apply returns_logger | apply returns_ret].
  - unfold on_heartbeat. apply returns_bind; [by intros s; exists s, s |].
    intros s. destruct (bool_decide _); [| apply returns_ret].
    destruct (sockets s !! k) as [w |]; [| apply returns_ret].
    destruct (readyState w); first [apply returns_ws_send | apply returns_ret].
Qed.

Lemma returns_run es : returns (run es).
Proof. apply returns_forEach, returns_handle. Qed.

Lemma run_app es1 es2 s :
  exec (run (es1 ++ es2)) s = exec (run es2) (exec (run es1) s).
Proof.
  revert s. induction es1 as [| e es1 IH]; intros s; [done |].
  unfold exec, run in *. simpl. munfold.
  destruct (returns_handle e s) as ([] & s' & E). rewrite E. apply IH.
Qed.

Lemma run_cons e es s :
  exec (run (e :: es)) s = exec (run es) (exec (handle e) s).
Proof.
  unfold exec, run. simpl. munfold.
  destruct (returns_handle e s) as ([] & s' & E). by rewrite E.
Qed.

Lemma run_nil s : exec (run []) s = s.
Proof. done. Qed.

Lemma deliver_nil w : deliver [] w = w.
Proof. destruct w as [c [] m]; unfold deliver; simpl; by rewrite ?app_nil_r. Qed.

Lemma deliver_app a b w : deliver b (deliver a w) = deliver (a ++ b) w.
Proof. destruct w as [c [] m]; unfold deliver; simpl; by rewrite ?app_assoc. Qed.

Lemma deliver_clientId msgs w : clientId (deliver msgs w) = clientId w.
Proof. by destruct w as [c [] m]. Qed.

Lemma deliver_readyState msgs w : readyState (deliver msgs w) = readyState w.
Proof. by destruct w as [c [] m]. Qed.

Lemma emit_nil k s : emit k [] [] s = s.
Proof.
  destruct s. unfold emit. simpl. rewrite app_nil_r. f_equal.
  apply alter_id. intros w _. apply deliver_nil.
Qed.

Lemma emit_log k lines s : emit k [] lines s = set_log (log s ++ lines) s.
Proof.
  destruct s. unfold emit, set_log. simpl. f_equal.
  apply alter_id. intros w _. apply deliver_nil.
Qed.

Lemma emit_emit k m1 l1 m2 l2 s :
  emit k m2 l2 (emit k m1 l1 s) = emit k (m1 ++ m2) (l1 ++ l2) s.
Proof.
  unfold emit. simpl. rewrite app_assoc. f_equal.
  rewrite alter_alter_eq. apply alter_ext. intros w _. simpl.
  apply deliver_app.
Qed.

Lemma sent_to_emit k msgs lines s w :
  sockets s !! k = Some w -> readyState w = OPEN ->
  sent_to k (emit k msgs lines s) = sent_to k s ++ msgs.
Proof.
  intros Hw Ho. unfold sent_to, emit. simpl.
  rewrite lookup_alter_eq, Hw. simpl. unfold deliver. by rewrite Ho.
Qed.

Lemma sent_to_emit_other k k' msgs lines s :
  k ≠ k' -> sent_to k' (emit k msgs lines s) = sent_to k' s.
Proof.
  intros Hne. unfold sent_to, emit. simpl. by rewrite lookup_alter_ne.
Qed.

(** The callback of the loop does what the specification says of a line:
    it sends the messages of the line and nothing else. *)
Lemma on_line_emit k cid line s :
  on_line k cid line s = (inr tt, emit k (line_msgs line) (line_logs cid line) s).
Proof.
  unfold on_line, line_msgs, line_logs, is_sentinel, line_token, content_of,
    payload, sentinel.
  destruct (startsWith (lit "data: ") line); [| by rewrite emit_nil].
  destruct (jsstring_eqb (substring_from 6 line) (lit "[DONE]")); [done |].
  munfold. unfold get_prop.
  destruct (JSON_parse (substring_from 6 line)) as [[| b | n | x | l | ms] |];
    simpl; try (by rewrite emit_nil); try (by rewrite emit_log).
  destruct (lookup_member (lit "content") ms) as [v |] eqn:E;
    [| by rewrite emit_nil].
  destruct (truthy (Some v)); simpl; [| by rewrite emit_nil].
  unfold emit, set_sockets. simpl. by rewrite app_nil_r.
Qed.

Lemma forEach_on_line k cid lines s :
  forEach lines (on_line k cid) s =
  (inr tt, emit k (flat_map line_msgs lines) (flat_map (line_logs cid) lines) s).
Proof.
  revert s. induction lines as [| l lines IH]; intros s; simpl.
  - by rewrite emit_nil.
  - munfold. rewrite on_line_emit, IH. by rewrite emit_emit.
Qed.

Lemma on_chunk_emit k cid chunk s :
  on_chunk k cid chunk s =
  (inr tt, emit k (flat_map line_msgs (split LF chunk)) (chunk_logs cid chunk) s).
Proof.
  unfold on_chunk. munfold. simpl. rewrite forEach_on_line.
  unfold emit, chunk_logs, set_log. simpl. by rewrite <- app_assoc.
Qed.

Lemma cid_of_emit k k' msgs lines s : cid_of k' (emit k msgs lines s) = cid_of k' s.
Proof.
  unfold cid_of, emit. simpl. destruct (decide (k = k')) as [-> |].
  - rewrite lookup_alter_eq. destruct (sockets s !! k'); [| done].
    simpl. by rewrite deliver_clientId.
  - by rewrite lookup_alter_ne.
Qed.

Lemma on_read_chunk t k chunk s :
  tasks s !! t = Some (Task k AwaitRead) ->
  on_read t (ReadChunk chunk) s =
  (inr tt, emit k (flat_map line_msgs (split LF chunk))
                (chunk_logs (cid_of k s) chunk) s).
Proof.
  intros Ht. unfold on_read. munfold. rewrite Ht. fold (cid_of k s).
  by rewrite on_chunk_emit.
Qed.

Lemma flat_map_concat {A B} (f : A -> list B) (ls : list (list A)) :
  flat_map f (concat ls) = concat (map (flat_map f) ls).
Proof.
  induction ls as [| l ls IH]; [done |].
  simpl. by rewrite flat_map_app, IH.
Qed.

(** The whole stream: the messages of all lines, in order. *)
Lemma run_reads t k chunks s :
  tasks s !! t = Some (Task k AwaitRead) ->
  exists lines,
    exec (run (reads t chunks)) s =
    emit k (flat_map line_msgs (lines_of chunks)) lines s.
Proof.
  revert s. induction chunks as [| c chunks IH]; intros s Ht.
  - exists []. by rewrite emit_nil.
  - unfold reads. simpl map. rewrite run_cons. simpl handle.
    unfold exec at 2. rewrite (on_read_chunk t k c s Ht). simpl snd.
    destruct (IH (emit k (flat_map line_msgs (split LF c))
                    (chunk_logs (cid_of k s) c) s)) as [lines E]; [done |].
    fold (reads t chunks). rewrite E, emit_emit.
    eexists. unfold lines_of. simpl. by rewrite flat_map_app.
Qed.

Lemma payload_data_line p : payload (data_line p) = Some p.
Proof. reflexivity. Qed.

Lemma line_msgs_sentinel : line_msgs (data_line sentinel) = [MsgDone].
Proof. reflexivity. Qed.




(** Splitting commutes with a cut at a separator. *)
Lemma split_nonempty sep s : split sep s <> [].
Proof.
  destruct s as [| c s]; simpl; [done |].
  destruct (c =? sep); [done |]. by destruct (split sep s).
Qed.

Lemma split_app_sep sep a b :
  split sep (a ++ sep :: b) = split sep a ++ split sep b.
Proof.
  induction a as [| c a IH]; simpl.
  - by rewrite N.eqb_refl.
  - destruct (c =? sep); [by rewrite IH |].
    rewrite IH. pose proof (split_nonempty sep a).
    by destruct (split sep a).
Qed.

(** When every chunk ends at a line break, the relay sends what it would
    send for the whole text in one piece: cutting the stream at line
    breaks changes nothing. *)
Lemma aligned_chunks_as_one_text chunks :
  Forall (fun c => exists a, c = a ++ [LF]) chunks ->
  flat_map line_msgs (lines_of chunks) =
  flat_map line_msgs (split LF (concat chunks)).
Proof.
  induction 1 as [| c chunks [a ->] _ IH]; [done |].
  unfold lines_of in *. simpl.
  rewrite flat_map_app, IH, <- app_assoc. simpl.
  rewrite !split_app_sep, !flat_map_app. simpl. by rewrite app_nil_r.
Qed.




(** C6.  A [data: ] line whose payload is neither the sentinel nor
    parseable is skipped: the callback returns, its only effect is a line
    in the log (no [error], no [done], no message at all); and in a chunk
    that holds such a line the turn of the loop returns, the handler stays
    suspended at the next read, and the sockets end as if the chunk had
    held only its other lines, those after the bad one included. *)
Theorem malformed_payload_is_skipped t k chunk pre p post s :
  tasks s !! t = Some (Task k AwaitRead) ->
  split LF chunk = pre ++ [data_line p] ++ post ->
  p <> sentinel ->
  JSON_parse p = None ->
  (forall cid s0,
     on_line k cid (data_line p) s0 =
     (inr tt, set_log (log s0 ++ [(ERROR, "Error parsing stream data:")]) s0))
  /\ fst (on_read t (ReadChunk chunk) s) = inr tt
  /\ tasks (exec (on_read t (ReadChunk chunk)) s) !! t = Some (Task k AwaitRead)
  /\ sockets (exec (on_read t (ReadChunk chunk)) s) =
     sockets (exec (forEach (pre ++ post) (on_line k (cid_of k s))) s).
Proof.
  intros Ht Hs Hp Hj.
  assert (Hm : line_msgs (data_line p) = []).
  { unfold line_msgs, is_sentinel, line_token, content_of.
    rewrite payload_data_line, Hj. unfold jsstring_eqb.
    by rewrite bool_decide_eq_false_2. }
  assert (Hg : forall cid, line_logs cid (data_line p) =
                           [(ERROR, "Error parsing stream data:")]).
  { intros cid. unfold line_logs. rewrite payload_data_line, Hj.
    unfold jsstring_eqb. by rewrite bool_decide_eq_false_2. }
  split; [| split; [| split]].
  - intros cid s0. by rewrite on_line_emit, Hm, Hg, emit_log.
  - by rewrite (on_read_chunk t k chunk s Ht).
  - unfold exec. by rewrite (on_read_chunk t k chunk s Ht).
  - unfold exec. rewrite (on_read_chunk t k chunk s Ht), forEach_on_line.
    simpl. rewrite Hs, !flat_map_app. simpl flat_map.
    by rewrite Hm, app_nil_r.
Qed.

Lemma malformed_payload_is_skipped_witness :
  tasks (exec (on_read 0
                 (ReadChunk (data_line (content_payload "a") ++ [LF]
                               ++ data_line (lit "{oops") ++ [LF]
                               ++ data_line (content_payload "b")))) streaming0)
    !! 0%nat = Some (Task 0 AwaitRead).
Proof.
  apply (malformed_payload_is_skipped 0 0
           (data_line (content_payload "a") ++ [LF]
              ++ data_line (lit "{oops") ++ [LF]
              ++ data_line (content_payload "b"))
           [data_line (content_payload "a")] (lit "{oops")
           [data_line (content_payload "b")] streaming0).
  - vm_compute. reflexivity.
  - vm_compute. reflexivity.
  - discriminate.
  - vm_compute. reflexivity.
Defined.

Section Preserves.

Variable P : server -> Prop.

Lemma preserves_ret {A} (a : A) : preserves P (ret a).
Proof. by intros s. Qed.

Lemma preserves_throw {A} e : preserves P (@throw A e).
Proof. by intros s. Qed.

Lemma preserves_get : preserves P get.
Proof. by intros s. Qed.

Lemma preserves_bind {A B} (m : M A) (f : A -> M B) :
  preserves P m -> (forall a, preserves P (f a)) -> preserves P (m ≫= f).
Proof.
  intros Hm Hf s Hs. unfold mbind, M_bind, bind.
  specialize (Hm s Hs). destruct (m s) as [[e | a] s']; [done |].
  by apply Hf.
Qed.

Lemma preserves_try_catch {A} (body : M A) (h : exn -> M A) :
  preserves P body -> (forall e, preserves P (h e)) ->
  preserves P (try_catch body h).
Proof.
  intros Hb Hh s Hs. unfold try_catch.
  specialize (Hb s Hs). destruct (body s) as [[e | a] s']; [| done].
  by apply Hh.
Qed.

Lemma preserves_forEach {A} (l : list A) (f : A -> M unit) :
  (forall x, preserves P (f x)) -> preserves P (forEach l f).
Proof.
  intros Hf. induction l as [| x l IH]; simpl.
  - apply preserves_ret.
  - apply preserves_bind; [apply Hf | intros _; apply IH].
Qed.

End Preserves.

Lemma fresh_modify f :
  (forall s, tasks (f s) = tasks s /\ next_task (f s) = next_task s) ->
  preserves fresh (modify f).
Proof.
  intros Hf s Hs t. simpl. destruct (Hf s) as [-> ->]. apply Hs.
Qed.

Lemma fresh_suspend k a : preserves fresh (suspend k a).
Proof.
  intros s Hs t. simpl. rewrite lookup_insert. case_decide as E.
  - subst t. lia.
  - intros Ht. specialize (Hs t Ht). lia.
Qed.

Lemma fresh_await_at t a : preserves fresh (await_at t a).
Proof.
  intros s Hs t'. simpl. rewrite lookup_alter_is_Some. apply Hs.
Qed.

Lemma fresh_finish t : preserves fresh (finish t).
Proof.
  intros s Hs t'. simpl. rewrite lookup_delete. case_decide.
  - by intros [? ?].
  - apply Hs.
Qed.

Lemma fresh_handle e : preserves fresh (handle e).
Proof.
  destruct e; simpl;
    unfold on_connection, on_message, on_fetch, on_read, on_closing, on_close,
      on_error, on_heartbeat, on_chunk, on_line, catch_block, send_request,
      parse, prop, lift, logger_info, logger_debug, logger_error, logger_log,
      ws_send;
    repeat first
      [ apply preserves_ret
      | apply preserves_throw
      | apply preserves_get
      | apply fresh_suspend
      | apply fresh_await_at
      | apply fresh_finish
      | apply fresh_modify; intros ?; split; reflexivity
      | apply preserves_bind; [| intros ?]
      | apply preserves_try_catch; [| intros ?]
      | apply preserves_forEach; intros ?
      | match goal with
        | |- preserves _ (match ?x with _ => _ end) => destruct x
        | |- preserves _ (if ?x then _ else _) => destruct x
        end ].
Qed.

Lemma fresh_run es s : fresh s -> fresh (exec (run es) s).
Proof.
  revert s. induction es as [| e es IH]; intros s Hs; [done |].
  rewrite run_cons. apply IH. by apply fresh_handle.
Qed.

Lemma fresh_initial : fresh initial.
Proof. intros t [x Hx]. simpl in Hx. by rewrite lookup_empty in Hx. Qed.

(** In a state the server reaches, the next handler identifier is free. *)
Lemma next_task_free es : tasks (exec (run es) initial) !! next_task (exec (run es) initial) = None.
Proof.
  destruct (tasks _ !! _) eqn:E; [| done].
  pose proof (fresh_run es initial fresh_initial _ (mk_is_Some _ _ E)). lia.
Qed.

Lemma get_prop_member data k k' v :
  get_prop data k = inr v -> get_prop data k' = inr (member data k').
Proof. unfold member. by destruct data. Qed.

Lemma on_message_chat s k w message data ty :
  sockets s !! k = Some w ->
  JSON_parse message = Some data ->
  get_prop data "type" = inr ty ->
  is_string ty "chat" = true ->
  on_message k message s =
  (inr tt,
   Server (sockets s) (activeConnections s) (heartbeats s)
          (<[next_task s := Task k AwaitFetch]> (tasks s))
          (requests s ++ [stream_request data])
          (next_ws s) (S (next_task s))
          (log s ++ [(DEBUG, "WebSocket message from " +:+ clientId w +:+ ":")])).
Proof.
  intros Hw Hj Hty Hc. unfold on_message, suspend, send_request. munfold.
  rewrite Hw, Hj. simpl. rewrite Hty, Hc.
  rewrite !(get_prop_member data "type" _ ty Hty). done.
Qed.

(** A message that parses to something other than [null] and whose [type]
    is not the string [chat] has no effect but a line in the log. *)
Lemma on_message_other s k w message data ty :
  sockets s !! k = Some w ->
  JSON_parse message = Some data ->
  get_prop data "type" = inr ty ->
  is_string ty "chat" = false ->
  on_message k message s =
  (inr tt,
   set_log (log s ++ [(DEBUG, "WebSocket message from " +:+ clientId w +:+ ":")]) s).
Proof.
  intros Hw Hj Hty Hc. unfold on_message. munfold.
  rewrite Hw, Hj. simpl. by rewrite Hty, Hc.
Qed.

Lemma on_message_unparseable s k w message :
  sockets s !! k = Some w ->
  JSON_parse message = None ->
  on_message k message s =
  (inr tt,
   emit k [MsgError SyntaxError]
     [(ERROR, "WebSocket error for " +:+ clientId w +:+ ":")] s).
Proof.
  intros Hw Hj. unfold on_message, catch_block. munfold.
  by rewrite Hw, Hj.
Qed.

(** In every state, a [stop] message changes nothing but the log. *)
Lemma on_message_stop s k w :
  sockets s !! k = Some w ->
  on_message k (typed_message "stop") s =
  (inr tt,
   set_log (log s ++ [(DEBUG, "WebSocket message from " +:+ clientId w +:+ ":")]) s).
Proof.
  intros Hw.
  apply (on_message_other s k w _ (JObj [(lit "type", JStr (lit "stop"))])
           (Some (JStr (lit "stop")))); try done.
Qed.

(** C3 (as amended).  In every state the server reaches, a [chat] message
    on a connection is accepted whether or not a generation is in flight
    there: the handler returns without exception, sends one more request
    upstream and suspends as a further generation next to those already
    in flight, which it leaves as they are; it sends nothing to the
    client, neither a rejection nor an error. *)
Theorem chat_in_flight_starts_another_generation es k w message data ty :
  sockets (exec (run es) initial) !! k = Some w ->
  JSON_parse message = Some data ->
  get_prop data "type" = inr ty ->
  is_string ty "chat" = true ->
  let s := exec (run es) initial in
  let s' := exec (on_message k message) s in
  fst (on_message k message s) = inr tt
  /\ tasks s !! next_task s = None
  /\ tasks s' = <[next_task s := Task k AwaitFetch]> (tasks s)
  /\ generations k s' = S (generations k s)
  /\ requests s' = requests s ++ [stream_request data]
  /\ sockets s' = sockets s.
Proof.
  intros Hw Hj Hty Hc s s'. subst s'.
  pose proof (next_task_free es) as Hf. fold s in Hf.
  unfold exec at 1 2 3 4.
  rewrite (on_message_chat s k w message data ty Hw Hj Hty Hc). simpl.
  repeat split; try done.
  unfold generations. simpl.
  rewrite map_filter_insert_True by done.
  rewrite map_size_insert_None; [done |].
  apply map_lookup_filter_None. by left.
Qed.

Lemma chat_in_flight_starts_another_generation_witness :
  generations 0 (exec (on_message 0 (typed_message "chat")) streaming0) =
  S (generations 0 streaming0).
Proof.
  apply (chat_in_flight_starts_another_generation
           [EvConnection "c1"; EvMessage 0 (typed_message "chat");
            EvFetch 0 (FetchResponse 200 true)]
           0 (Socket "c1" OPEN [MsgInfo "c1"]) (typed_message "chat")
           (JObj [(lit "type", JStr (lit "chat"))])
           (Some (JStr (lit "chat")))).
  - vm_compute. reflexivity.
  - vm_compute. reflexivity.
  - reflexivity.
  - reflexivity.
Defined.

(** C3 (as stated) fails: after two [chat] messages on one connection two
    generations are in flight there, two requests went upstream, the client
    was told nothing, and the tokens of both streams reach it. *)
Lemma two_generations_on_one_connection :
  let s := exec (run [EvConnection "c1";
                      EvMessage 0 (typed_message "chat");
                      EvMessage 0 (typed_message "chat")]) initial in
  let s' := exec (run [EvFetch 0 (FetchResponse 200 true);
                       EvFetch 1 (FetchResponse 200 true);
                       EvRead 0 (ReadChunk (data_line (content_payload "a") ++ [LF]));
                       EvRead 1 (ReadChunk (data_line (content_payload "b") ++ [LF]))]) s in
  generations 0 s = 2%nat
  /\ length (requests s) = 2%nat
  /\ sent_to 0 s = [MsgInfo "c1"]
  /\ sent_to 0 s' = [MsgInfo "c1"; MsgToken (JStr (lit "a")); MsgToken (JStr (lit "b"))].
Proof. vm_compute. repeat split; reflexivity. Qed.

(** C2 (as amended).  The relay has no handling of [stop]: the message
    is parsed, logged and otherwise ignored.  The handler returns; nothing
    is sent, no request leaves, the generation in flight on the connection
    stays suspended at its read; and every later chunk is forwarded
    exactly as if no [stop] had arrived, the generation still in flight
    afterwards. *)
Theorem stop_message_is_ignored s k w t chunk :
  sockets s !! k = Some w ->
  tasks s !! t = Some (Task k AwaitRead) ->
  let s1 := exec (on_message k (typed_message "stop")) s in
  let s2 := exec (on_read t (ReadChunk chunk)) s1 in
  fst (on_message k (typed_message "stop") s) = inr tt
  /\ sockets s1 = sockets s
  /\ tasks s1 = tasks s
  /\ requests s1 = requests s
  /\ sockets s2 = sockets (exec (on_read t (ReadChunk chunk)) s)
  /\ sockets s2 = alter (deliver (flat_map line_msgs (split LF chunk))) k (sockets s)
  /\ tasks s2 !! t = Some (Task k AwaitRead).
Proof.
  intros Hw Ht s1 s2. subst s2 s1. unfold exec.
  rewrite (on_message_stop s k w Hw). simpl fst. simpl snd.
  rewrite (on_read_chunk t k chunk s Ht).
  rewrite (on_read_chunk t k chunk (set_log _ s) Ht).
  by repeat split.
Qed.

Lemma stop_message_is_ignored_witness :
  sockets
    (exec (on_read 0 (ReadChunk (data_line (content_payload "b") ++ [LF])))
       (exec (on_message 0 (typed_message "stop")) streaming0)) =
  sockets
    (exec (on_read 0 (ReadChunk (data_line (content_payload "b") ++ [LF])))
       streaming0).
Proof.
  apply (stop_message_is_ignored streaming0 0 (Socket "c1" OPEN [MsgInfo "c1"]) 0
           (data_line (content_payload "b") ++ [LF])).
  - vm_compute. reflexivity.
  - vm_compute. reflexivity.
Defined.

(** C2 (as stated) fails: a generation is streaming and one token was
    forwarded; the [stop] message is processed; the generation is still in
    flight, and the token of the next chunk is sent to the connection. *)
Lemma token_follows_a_processed_stop :
  let s1 := exec (run [EvRead 0 (ReadChunk (data_line (content_payload "a") ++ [LF]))])
              streaming0 in
  let s2 := exec (run [EvMessage 0 (typed_message "stop")]) s1 in
  let s3 := exec (run [EvRead 0 (ReadChunk (data_line (content_payload "b") ++ [LF]))])
              s2 in
  sent_to 0 s1 = [MsgInfo "c1"; MsgToken (JStr (lit "a"))]
  /\ sent_to 0 s2 = sent_to 0 s1
  /\ tasks s2 !! 0%nat = Some (Task 0 AwaitRead)
  /\ sent_to 0 s3 = [MsgInfo "c1"; MsgToken (JStr (lit "a")); MsgToken (JStr (lit "b"))].
Proof. vm_compute. repeat split; reflexivity. Qed.

(** ** The heartbeat and the registry *)

Lemma on_heartbeat_open s k w :
  k ∈ heartbeats s -> sockets s !! k = Some w -> readyState w = OPEN ->
  on_heartbeat k s = (inr tt, emit k [MsgPing] [] s).
Proof.
  intros Hk Hw Ho. unfold on_heartbeat. munfold.
  rewrite bool_decide_eq_true_2, Hw, Ho by done.
  unfold emit, set_sockets. simpl. by rewrite app_nil_r.
Qed.

Lemma on_heartbeat_not_open s k w :
  sockets s !! k = Some w -> readyState w <> OPEN ->
  on_heartbeat k s = (inr tt, s).
Proof.
  intros Hw Ho. unfold on_heartbeat. munfold.
  rewrite Hw. destruct (bool_decide _); [| done].
  by destruct (readyState w).
Qed.

(** The heartbeat never touches the registry. *)
Lemma on_heartbeat_registry s k :
  activeConnections (exec (on_heartbeat k) s) = activeConnections s.
Proof.
  unfold exec, on_heartbeat. munfold.
  destruct (bool_decide _); [| done].
  destruct (sockets s !! k) as [w |]; [| done].
  by destruct (readyState w).
Qed.

Lemma on_close_registry s k w :
  sockets s !! k = Some w ->
  activeConnections (exec (on_close k) s) = delete (clientId w) (activeConnections s)
  /\ heartbeats (exec (on_close k) s) = heartbeats s ∖ {[k]}.
Proof. intros Hw. unfold exec, on_close. munfold. by rewrite Hw. Qed.

(** C8 (as amended).  When the heartbeat timers of an open connection and
    of a connection that is no longer open fire, exactly one ping is sent,
    to the open connection, and the registry is left as it was: the
    connection that is not open stays registered.  It is the [close]
    handler of a connection that removes it from the registry and clears
    its timer. *)
Theorem heartbeat_pings_open_connection_only s k1 k2 w1 w2 :
  k1 <> k2 ->
  sockets s !! k1 = Some w1 -> readyState w1 = OPEN ->
  sockets s !! k2 = Some w2 -> readyState w2 <> OPEN ->
  k1 ∈ heartbeats s ->
  let s' := exec (run [EvHeartbeat k1; EvHeartbeat k2]) s in
  sockets s' = <[k1 := Socket (clientId w1) OPEN (sent w1 ++ [MsgPing])]> (sockets s)
  /\ activeConnections s' = activeConnections s
  /\ activeConnections (exec (handle (EvClose k2)) s') =
       delete (clientId w2) (activeConnections s)
  /\ heartbeats (exec (handle (EvClose k2)) s') = heartbeats s ∖ {[k2]}.
Proof.
  intros Hne Hw1 Ho1 Hw2 Ho2 Hk1 s'. subst s'.
  rewrite !run_cons, run_nil. simpl handle.
  assert (E1 : exec (on_heartbeat k1) s = emit k1 [MsgPing] [] s).
  { unfold exec. by rewrite (on_heartbeat_open s k1 w1 Hk1 Hw1 Ho1). }
  rewrite E1.
  assert (Hw2' : sockets (emit k1 [MsgPing] [] s) !! k2 = Some w2).
  { simpl. by rewrite lookup_alter_ne. }
  assert (E2 : exec (on_heartbeat k2) (emit k1 [MsgPing] [] s) =
               emit k1 [MsgPing] [] s).
  { unfold exec. by rewrite (on_heartbeat_not_open _ k2 w2 Hw2' Ho2). }
  rewrite E2.
  destruct (on_close_registry _ k2 w2 Hw2') as [-> ->].
  repeat split; try done.
  simpl. apply map_eq. intros i. rewrite lookup_alter, lookup_insert.
  case_decide; [subst i | done]. rewrite Hw1. simpl.
  unfold deliver. by rewrite Ho1.
Qed.

Lemma heartbeat_pings_open_connection_only_witness :
  let s := exec (run [EvConnection "c1"; EvConnection "c2"; EvClosing 1]) initial in
  activeConnections (exec (run [EvHeartbeat 0; EvHeartbeat 1]) s) =
  activeConnections s.
Proof.
  apply (heartbeat_pings_open_connection_only
           (exec (run [EvConnection "c1"; EvConnection "c2"; EvClosing 1]) initial)
           0 1 (Socket "c1" OPEN [MsgInfo "c1"]) (Socket "c2" CLOSING [MsgInfo "c2"])).
  - discriminate.
  - vm_compute. reflexivity.
  - reflexivity.
  - vm_compute. reflexivity.
  - discriminate.
  - vm_compute. reflexivity.
Defined.

(** C8 (as stated) fails: two connections are registered, the second has
    left the OPEN state; both heartbeat timers fire; one ping is sent, and
    the second connection is still in the registry. *)
Lemma heartbeat_leaves_closed_connection_registered :
  let s := exec (run [EvConnection "c1"; EvConnection "c2"; EvClosing 1]) initial in
  let s' := exec (run [EvHeartbeat 0; EvHeartbeat 1]) s in
  readyState <$> sockets s !! 0%nat = Some OPEN
  /\ readyState <$> sockets s !! 1%nat = Some CLOSING
  /\ activeConnections s !! "c1" = Some 0%nat
  /\ activeConnections s !! "c2" = Some 1%nat
  /\ sent_to 0 s' = sent_to 0 s ++ [MsgPing]
  /\ sent_to 1 s' = sent_to 1 s
  /\ activeConnections s' !! "c2" = Some 1%nat.
Proof. vm_compute. repeat split; reflexivity. Qed.

(** ** Invalid requests *)

Lemma returns_api_chat completion req_body : returns (api_chat completion req_body).
Proof.
  apply returns_try_catch. intros e.
  apply returns_bind; [apply returns_logger | intros _; apply returns_ret].
Qed.

Lemma api_chat_without_message completion req_body s :
  (req_body = None \/
   exists b, req_body = Some b /\ get_prop b "message" = inr None) ->
  api_chat completion req_body s =
  (inr (Response 500 (BodyError TypeError)),
   set_log (log s ++ [(ERROR, "Chat error:")]) s).
Proof.
  intros [-> | (b & -> & Hm)]; unfold api_chat; munfold; [done |].
  rewrite Hm, !(get_prop_member b "message" _ None Hm). done.
Qed.

(** *** What follows a message does not depend on its fields *)

Lemma alike_refl s : alike s s.
Proof. by repeat split. Qed.

Lemma oblivious_ret {A} (a : A) : oblivious (ret a).
Proof. by intros s1 s2 H. Qed.

Lemma oblivious_throw {A} e : oblivious (@throw A e).
Proof. by intros s1 s2 H. Qed.

Lemma oblivious_lift {A} (r : exn + A) : oblivious (lift r).
Proof. destruct r; [apply oblivious_throw | apply oblivious_ret]. Qed.

Lemma oblivious_parse text : oblivious (parse text).
Proof.
  unfold parse. destruct (JSON_parse text);
    [apply oblivious_ret | apply oblivious_throw].
Qed.

Lemma oblivious_modify f :
  (forall s1 s2, alike s1 s2 -> alike (f s1) (f s2)) -> oblivious (modify f).
Proof. intros Hf s1 s2 H. split; [done | by apply Hf]. Qed.

Lemma oblivious_bind {A B} (m : M A) (f : A -> M B) :
  oblivious m -> (forall a, oblivious (f a)) -> oblivious (m ≫= f).
Proof.
  intros Hm Hf s1 s2 H. unfold mbind, M_bind, bind.
  destruct (Hm s1 s2 H) as [E Ha].
  destruct (m s1) as [[e1 | a1] t1], (m s2) as [[e2 | a2] t2];
    simpl in *; try discriminate.
  - injection E as ->. by split.
  - injection E as ->. by apply Hf.
Qed.

Lemma oblivious_try_catch {A} (body : M A) (h : exn -> M A) :
  oblivious body -> (forall e, oblivious (h e)) -> oblivious (try_catch body h).
Proof.
  intros Hb Hh s1 s2 H. unfold try_catch.
  destruct (Hb s1 s2 H) as [E Ha].
  destruct (body s1) as [[e1 | a1] t1], (body s2) as [[e2 | a2] t2];
    simpl in *; try discriminate.
  - injection E as ->. by apply Hh.
  - by split.
Qed.

Lemma oblivious_forEach {A} (l : list A) (f : A -> M unit) :
  (forall x, oblivious (f x)) -> oblivious (forEach l f).
Proof.
  intros Hf. induction l as [| x l IH]; simpl.
  - apply oblivious_ret.
  - apply oblivious_bind; [apply Hf | intros _; apply IH].
Qed.

(** A handler that first looks at the state, but not at the requests. *)
Lemma oblivious_get_bind {A} (k : server -> M A) :
  (forall s1 s2, alike s1 s2 -> k s1 = k s2) ->
  (forall s, oblivious (k s)) ->
  oblivious (get ≫= k).
Proof.
  intros Hk Ho s1 s2 H. unfold mbind, M_bind, bind, get.
  rewrite (Hk s1 s2 H). by apply Ho.
Qed.

Lemma oblivious_logger lv msg : oblivious (logger_log lv msg).
Proof. apply oblivious_modify. alike_update. Qed.

Lemma oblivious_ws_send k m : oblivious (ws_send k m).
Proof. apply oblivious_modify. alike_update. Qed.

Lemma oblivious_catch_block k cid e : oblivious (catch_block k cid e).
Proof.
  apply oblivious_bind; [apply oblivious_logger | intros _; apply oblivious_ws_send].
Qed.

Lemma oblivious_finish t : oblivious (finish t).
Proof. apply oblivious_modify. alike_update. Qed.

Lemma oblivious_on_line k cid line : oblivious (on_line k cid line).
Proof.
  unfold on_line. destruct (startsWith _ _); [| apply oblivious_ret].
  destruct (jsstring_eqb _ _).
  - apply oblivious_bind; [apply oblivious_ws_send | intros _; apply oblivious_logger].
  - apply oblivious_try_catch; [| intros e; apply oblivious_logger].
    apply oblivious_bind; [apply oblivious_parse | intros jsonData].
    apply oblivious_bind; [apply oblivious_lift | intros content].
    destruct (truthy content); [| apply oblivious_ret].
    destruct content; [apply oblivious_ws_send | apply oblivious_ret].
Qed.

Lemma oblivious_on_message_body k message cid :
  oblivious
    (data ← parse message;
     logger_debug ("WebSocket message from " +:+ cid +:+ ":");;
     ty ← prop data "type";
     if is_string ty "chat" then
       msg ← prop data "message";
       maxTokens ← prop data "maxTokens";
       temp ← prop data "temperature";
       send_request
         (CompletionRequest msg
            (or_default maxTokens default_n_predict)
            (or_default temp default_temperature)
            true);;
       suspend k AwaitFetch
     else ret tt).
Proof.
  apply oblivious_bind; [apply oblivious_parse | intros data].
  apply oblivious_bind; [apply oblivious_logger | intros _].
  apply oblivious_bind; [apply oblivious_lift | intros ty].
  destruct (is_string ty "chat"); [| apply oblivious_ret].
  repeat (apply oblivious_bind; [apply oblivious_lift | intros ?]).
  apply oblivious_bind; [| intros _]; apply oblivious_modify; alike_update.
Qed.

(** No handler looks at the requests that were sent. *)
Lemma oblivious_handle e : oblivious (handle e).
Proof.
  destruct e as [cid | k msg | t r | t r | k | k | k | k]; simpl.
  - unfold on_connection. apply oblivious_get_bind.
    + intros s1 s2 (_ & _ & _ & _ & -> & _). reflexivity.
    + intros s. repeat (apply oblivious_bind; [| intros _]);
        first [apply oblivious_logger | apply oblivious_ws_send
              | apply oblivious_modify; alike_update].
  - unfold on_message. apply oblivious_get_bind.
    + intros s1 s2 (-> & _). reflexivity.
    + intros s. destruct (sockets s !! k); [| apply oblivious_ret].
      apply oblivious_try_catch;
        [apply oblivious_on_message_body | intros e; apply oblivious_catch_block].
  - unfold on_fetch. apply oblivious_get_bind.
    + intros s1 s2 (-> & _ & _ & -> & _). reflexivity.
    + intros s. destruct (tasks s !! t) as [[k []] |]; try apply oblivious_ret.
      apply oblivious_try_catch.
      * destruct r as [e | st hb]; [apply oblivious_throw |].
        destruct (negb (response_ok st)); [apply oblivious_throw |].
        destruct (negb hb); [apply oblivious_throw |].
        apply oblivious_modify. alike_update.
      * intros e. apply oblivious_bind;
          [apply oblivious_finish | intros _; apply oblivious_catch_block].
  - unfold on_read. apply oblivious_get_bind.
    + intros s1 s2 (-> & _ & _ & -> & _). reflexivity.
    + intros s. destruct (tasks s !! t) as [[k []] |]; try apply oblivious_ret.
      apply oblivious_try_catch.
      * destruct r as [e | | chunk];
          [apply oblivious_throw | apply oblivious_finish |].
        apply oblivious_bind; [apply oblivious_logger | intros _].
        apply oblivious_forEach. intros line. apply oblivious_on_line.
      * intros e. apply oblivious_bind;
          [apply oblivious_finish | intros _; apply oblivious_catch_block].
  - apply oblivious_modify. alike_update.
  - unfold on_close. apply oblivious_get_bind.
    + intros s1 s2 (-> & _). reflexivity.
    + intros s. destruct (sockets s !! k); [| apply oblivious_ret].
      repeat (apply oblivious_bind; [| intros _]);
        first [apply oblivious_logger | apply oblivious_modify; alike_update].
  - unfold on_error. apply oblivious_get_bind.
    + intros s1 s2 (-> & _). reflexivity.
    + intros s. destruct (sockets s !! k);
        [apply oblivious_logger | apply oblivious_ret].
  - unfold on_heartbeat. apply oblivious_get_bind.
    + intros s1 s2 (-> & _ & -> & _). reflexivity.
    + intros s. destruct (bool_decide _); [| apply oblivious_ret].
      destruct (sockets s !! k) as [w |]; [| apply oblivious_ret].
      destruct (readyState w); first [apply oblivious_ws_send | apply oblivious_ret].
Qed.

Lemma oblivious_run es : oblivious (run es).
Proof. apply oblivious_forEach, oblivious_handle. Qed.

Lemma is_chat_get_prop data :
  is_string (member data "type") "chat" = true ->
  get_prop data "type" = inr (member data "type").
Proof. unfold member. by destruct data. Qed.

(** Two [chat] messages leave states that differ in the request only. *)
Lemma on_message_chat_alike s k valid1 valid2 data1 data2 :
  JSON_parse valid1 = Some data1 ->
  is_string (member data1 "type") "chat" = true ->
  JSON_parse valid2 = Some data2 ->
  is_string (member data2 "type") "chat" = true ->
  alike (exec (on_message k valid1) s) (exec (on_message k valid2) s).
Proof.
  intros Hj1 Hc1 Hj2 Hc2. unfold exec.
  destruct (sockets s !! k) as [w |] eqn:Hw.
  - rewrite (on_message_chat s k w valid1 data1 _ Hw Hj1 (is_chat_get_prop _ Hc1) Hc1).
    rewrite (on_message_chat s k w valid2 data2 _ Hw Hj2 (is_chat_get_prop _ Hc2) Hc2).
    by repeat split.
  - unfold on_message. munfold. rewrite Hw. apply alike_refl.
Qed.

(** C9 (as amended).  [POST /api/chat] whose body reaches the handler
    absent, or as an object or array without [message], is answered with
    status 500 and [{error}]; a WebSocket message that is not valid JSON
    is answered with an [error] message; and no handler ends in an
    uncaught exception.  A WebSocket message that is valid JSON (other
    than [null]) is not validated.  When its [type] is not [chat] the
    handler logs it and returns: nothing is sent, no request is made and
    no handler stays suspended.  When its [type] is [chat] the handler
    sends the completion request whichever other fields are lacking and
    sends nothing before the upstream answers; and what is sent
    afterwards does not depend on the fields of the message: two [chat]
    messages followed by the same events leave the same messages on
    every socket and the same handlers suspended. *)
Theorem invalid_requests_are_answered completion req_body s k w message :
  (req_body = None \/
   exists b, req_body = Some b /\ strict_json b = true
             /\ get_prop b "message" = inr None) ->
  sockets s !! k = Some w ->
  readyState w = OPEN ->
  JSON_parse message = None ->
  fst (api_chat completion req_body s) = inr (Response 500 (BodyError TypeError))
  /\ fst (on_message k message s) = inr tt
  /\ sent_to k (exec (on_message k message) s) =
       sent_to k s ++ [MsgError SyntaxError]
  /\ (forall e, returns (handle e))
  /\ (forall c b, returns (api_chat c b))
  /\ (forall valid data ty,
        JSON_parse valid = Some data -> get_prop data "type" = inr ty ->
        is_string ty "chat" = false ->
        on_message k valid s =
        (inr tt,
         set_log (log s ++ [(DEBUG, "WebSocket message from " +:+ clientId w +:+ ":")]) s))
  /\ (forall valid data,
        JSON_parse valid = Some data ->
        is_string (member data "type") "chat" = true ->
        sockets (exec (on_message k valid) s) = sockets s
        /\ requests (exec (on_message k valid) s) =
             requests s ++ [CompletionRequest (member data "message")
                              (or_default (member data "maxTokens") default_n_predict)
                              (or_default (member data "temperature") default_temperature)
                              true]
        /\ tasks (exec (on_message k valid) s) =
             <[next_task s := Task k AwaitFetch]> (tasks s))
  /\ (forall valid1 valid2 data1 data2 es,
        JSON_parse valid1 = Some data1 ->
        is_string (member data1 "type") "chat" = true ->
        JSON_parse valid2 = Some data2 ->
        is_string (member data2 "type") "chat" = true ->
        sockets (exec (run (EvMessage k valid1 :: es)) s) =
          sockets (exec (run (EvMessage k valid2 :: es)) s)
        /\ tasks (exec (run (EvMessage k valid1 :: es)) s) =
             tasks (exec (run (EvMessage k valid2 :: es)) s)).
Proof.
  intros Hb Hw Ho Hj.
  split; [| split; [| split; [| split; [| split; [| split; [| split]]]]]].
  - rewrite api_chat_without_message; [done |].
    destruct Hb as [-> | (b & -> & _ & Hm)]; [by left | right; by exists b].
  - by rewrite (on_message_unparseable s k w).
  - unfold exec. rewrite (on_message_unparseable s k w) by done.
    simpl snd. by apply (sent_to_emit k _ _ s w).
  - apply returns_handle.
  - apply returns_api_chat.
  - intros valid data ty Hv Hty Hc. by apply (on_message_other s k w valid data ty).
  - intros valid data Hv Hc. unfold exec.
    by rewrite (on_message_chat s k w valid data _ Hw Hv (is_chat_get_prop _ Hc) Hc).
  - intros valid1 valid2 data1 data2 es Hj1 Hc1 Hj2 Hc2.
    rewrite !run_cons. simpl handle.
    pose proof (on_message_chat_alike s k valid1 valid2 data1 data2
                  Hj1 Hc1 Hj2 Hc2) as Ha.
    destruct (oblivious_run es _ _ Ha) as [_ (Hs & _ & _ & Ht & _)].
    by split.
Qed.

Lemma invalid_requests_are_answered_witness :
  fst (api_chat (fun _ => CompletionRejected (IOError (lit "ECONNREFUSED")))
         (Some (JObj [(lit "maxTokens", JNum (num_of_N 10))]))
         (exec (run [EvConnection "c1"]) initial)) =
    inr (Response 500 (BodyError TypeError))
  /\ sent_to 0 (exec (on_message 0 (lit "{oops")) (exec (run [EvConnection "c1"]) initial)) =
       sent_to 0 (exec (run [EvConnection "c1"]) initial) ++ [MsgError SyntaxError].
Proof.
  destruct (invalid_requests_are_answered
              (fun _ => CompletionRejected (IOError (lit "ECONNREFUSED")))
              (Some (JObj [(lit "maxTokens", JNum (num_of_N 10))]))
              (exec (run [EvConnection "c1"]) initial)
              0 (Socket "c1" OPEN [MsgInfo "c1"]) (lit "{oops"))
    as (H1 & _ & H3 & _).
  - right. eexists. repeat split; reflexivity.
  - vm_compute. reflexivity.
  - reflexivity.
  - vm_compute. reflexivity.
  - split; [exact H1 | exact H3].
Defined.

(** C9 (as stated) fails: a WebSocket message that is valid JSON and has
    none of the fields of the protocol gets no answer at all; a [chat]
    message without [message] is sent upstream without a prompt. *)
Lemma message_without_fields_gets_no_error :
  let s := exec (run [EvConnection "c1"]) initial in
  let s1 := exec (run [EvMessage 0 (lit "{}")]) s in
  let s2 := exec (run [EvMessage 0 (typed_message "chat")]) s in
  JSON_parse (lit "{}") = Some (JObj [])
  /\ sent_to 0 s = [MsgInfo "c1"]
  /\ sent_to 0 s1 = [MsgInfo "c1"]
  /\ sent_to 0 s2 = [MsgInfo "c1"]
  /\ requests s2 =
       [CompletionRequest None default_n_predict default_temperature true].
Proof. vm_compute. repeat split; reflexivity. Qed.

Lemma parse_hi_body :
  JSON_parse hi_body_text =
  Some (JObj [(lit "message", JStr (lit "hi"));
              (lit "maxTokens", JNum (num_of_N 10));
              (lit "temperature", JNum (Number false 5 (-1)))]).
Proof. vm_compute. reflexivity. Qed.

Lemma parse_hello : JSON_parse hello_text = Some hello_data.
Proof. vm_compute. reflexivity. Qed.

(** C7.  [POST /api/chat] with the body
    [{message:"hi", maxTokens:10, temperature:0.5}]: when the completion
    endpoint answers the request [{prompt:"hi", n_predict:10,
    temperature:0.5, stream:false}] with a body that reads
    [{content:"hello", tokens_used:3}], the response is status 200 with
    [{response:"hello", tokens_used:3}]. *)
Theorem chat_returns_the_completion completion st text s :
  completion (CompletionRequest (Some (JStr (lit "hi")))
                (JNum (num_of_N 10)) (JNum (Number false 5 (-1))) false) =
    CompletionResponse st text ->
  JSON_parse text = Some hello_data ->
  fst (api_chat completion (JSON_parse hi_body_text) s) =
  inr (Response 200
         (BodyJson (JObj [(lit "response", JStr (lit "hello"));
                          (lit "tokens_used", JNum (num_of_N 3))]))).
Proof.
  intros Hc Hj. rewrite parse_hi_body.
  unfold api_chat, fetch_json, send_request. munfold. simpl.
  unfold default_n_predict, default_temperature. simpl.
  rewrite Hc, Hj. reflexivity.
Qed.

Lemma chat_returns_the_completion_witness :
  fst (api_chat (fun _ => CompletionResponse 200 hello_text)
         (JSON_parse hi_body_text) initial) =
  inr (Response 200
         (BodyJson (JObj [(lit "response", JStr (lit "hello"));
                          (lit "tokens_used", JNum (num_of_N 3))]))).
Proof.
  apply (chat_returns_the_completion
           (fun _ => CompletionResponse 200 hello_text) 200 hello_text initial).
  - reflexivity.
  - vm_compute. reflexivity.
Defined.

(** ** The upload endpoint *)

Lemma take_min_length {A} (n : nat) (l : list A) :
  take (n `min` length l) l = take n l.
Proof.
  destruct (Nat.min_spec n (length l)) as [[_ ->] | [Hle ->]]; [done |].
  by rewrite firstn_all, take_ge.
Qed.

(** C10 (as amended).  For every body that reaches the handler as the
    buffer of [express.raw], [POST /api/upload] answers with status 200,
    [success: true], [size] the length of the decoded body and [content]
    its first [min(1000, length)] code units, never more than 1000 of
    them; the only effect of the handler is one line in the log, and
    nothing of the body is stored.  A request of which no body was read
    is answered with status 500 and [{error}]. *)
Theorem upload_returns_preview toString Number_toString x_filename buffer s :
  api_upload toString Number_toString x_filename (BodyBuffer buffer) s =
    (inr (Response 200
            (BodyJson (JObj
               [(lit "success", JBool true);
                (lit "filename",
                 or_default (JStr <$> x_filename) (JStr (lit "upload.txt")));
                (lit "size",
                 JNum (num_of_N (N.of_nat (length (toString buffer)))));
                (lit "content",
                 JStr (take (1000 `min` length (toString buffer))
                         (toString buffer)))]))),
     set_log (log s ++ [(INFO, "File upload received:")]) s)
  /\ length (take (1000 `min` length (toString buffer)) (toString buffer)) =
       (1000 `min` length (toString buffer))%nat
  /\ (length (take (1000 `min` length (toString buffer)) (toString buffer))
        <= 1000)%nat
  /\ api_upload toString Number_toString x_filename BodyUndefined s =
       (inr (Response 500 (BodyError TypeError)),
        set_log (log s ++ [(ERROR, "Upload error:")]) s).
Proof.
  rewrite take_min_length. split; [reflexivity |].
  rewrite length_take. split; [lia |]. split; [lia | reflexivity].
Qed.

(** C10 (as stated) fails.  The body [{"a":1}], seven code units, sent
    as JSON is parsed by the global [express.json] before the route: the
    handler finds the parsed object, and the answer has [size] 15 and
    [content] [[object Object]].  And a request of which no body was read
    is answered with status 500.  (The two decodings play no part for
    these bodies.) *)
Lemma upload_of_json_or_nothing_is_not_previewed :
  let text := lit "{" ++ quoted "a" ++ lit ":1}" in
  let parsed_text := JObj [(lit "a", JNum (num_of_N 1))] in
  JSON_parse text = Some parsed_text
  /\ length text = 7%nat
  /\ fst (api_upload (fun _ => []) (fun _ => []) None (BodyParsed parsed_text) initial) =
       inr (Response 200
              (BodyJson (JObj
                 [(lit "success", JBool true);
                  (lit "filename", JStr (lit "upload.txt"));
                  (lit "size", JNum (num_of_N 15));
                  (lit "content", JStr (lit "[object Object]"))])))
  /\ fst (api_upload (fun _ => []) (fun _ => []) None BodyUndefined initial) =
       inr (Response 500 (BodyError TypeError)).
Proof. vm_compute. repeat split; reflexivity. Qed.

Lemma Math_round_div_nearest size :
  nearest_MB (Math_round_div size (1024 * 1024)) size.
Proof.
  unfold nearest_MB, Math_round_div.
  change (2 * (1024 * 1024)) with 2097152.
  change (1024 * 1024) with 1048576.
  pose proof (N.div_mod (2 * size + 1048576) 2097152) as Hd.
  pose proof (N.mod_lt (2 * size + 1048576) 2097152) as Hm.
  set (d := (2 * size + 1048576) `div` 2097152) in *.
  set (r := (2 * size + 1048576) `mod` 2097152) in *.
  clearbody d r. lia.
Qed.

Lemma push_models_ok fs files models s :
  Forall (fun f => exists z, statSync fs f = inr z) (filter is_gguf files) ->
  push_models fs files models s =
  (inr (models ++ map (fun f => model_entry f (size_of fs f)) (filter is_gguf files)), s).
Proof.
  revert models. induction files as [| f files IH]; intros models Hall; simpl.
  - by rewrite app_nil_r.
  - destruct (endsWith (lit ".gguf") f) eqn:E.
    + rewrite filter_cons_True in * by done.
      apply Forall_cons in Hall as [[z Hz] Hall].
      assert (Hs : size_of fs f = z) by (unfold size_of; by rewrite Hz).
      munfold. rewrite Hz. simpl.
      rewrite IH by done. by rewrite <- app_assoc, Hs.
    + rewrite filter_cons_False in *; [by apply IH | |];
        unfold is_gguf; by rewrite E.
Qed.

(** A [.gguf] file that cannot be examined aborts the listing. *)
Lemma push_models_fails fs pre f post models s e :
  Forall (fun g => exists z, statSync fs g = inr z) (filter is_gguf pre) ->
  is_gguf f ->
  statSync fs f = inl e ->
  push_models fs (pre ++ f :: post) models s = (inl e, s).
Proof.
  revert models. induction pre as [| g pre IH]; intros models Hall Hf He; simpl.
  - rewrite Hf. munfold. by rewrite He.
  - destruct (endsWith (lit ".gguf") g) eqn:E.
    + rewrite filter_cons_True in Hall by done.
      apply Forall_cons in Hall as [[z Hz] Hall].
      munfold. rewrite Hz. simpl. by apply IH.
    + rewrite filter_cons_False in Hall; [by apply IH |].
      unfold is_gguf. by rewrite E.
Qed.

(** C4.  The directory exists and holds three files, two of which have
    names that end with [.gguf]: [GET /api/models] answers with status
    200 and exactly two entries, those of the two files in the order of
    the listing, each with the size of its file and, as [sizeMB], an
    integer nearest to the size divided by 1,048,576. *)
Theorem models_lists_the_two_gguf_files fs files f1 f2 z1 z2 s :
  existsSync fs = true ->
  readdirSync fs = inr files ->
  length files = 3%nat ->
  filter is_gguf files = [f1; f2] ->
  statSync fs f1 = inr z1 ->
  statSync fs f2 = inr z2 ->
  exists m1 m2,
    fst (api_models fs s) =
      inr (Response 200
             (BodyJson (JObj [(lit "models",
                               JArr [listed f1 z1 m1; listed f2 z2 m2])])))
    /\ nearest_MB m1 z1 /\ nearest_MB m2 z2.
Proof.
  intros He Hr _ Hf H1 H2.
  exists (Math_round_div z1 (1024 * 1024)), (Math_round_div z2 (1024 * 1024)).
  split; [| split; apply Math_round_div_nearest].
  unfold api_models. munfold. rewrite He, Hr.
  rewrite push_models_ok.
  - rewrite Hf. simpl. unfold size_of. by rewrite H1, H2.
  - rewrite Hf. repeat constructor; eauto.
Qed.

Lemma models_lists_the_two_gguf_files_witness :
  exists m1 m2,
    fst (api_models
           (FsView true (inr [lit "a.gguf"; lit "notes.txt"; lit "b.gguf"])
              (fun f => if jsstring_eqb f (lit "a.gguf") then inr 1572864
                        else inr 1048575))
           initial) =
      inr (Response 200
             (BodyJson (JObj [(lit "models",
                               JArr [listed (lit "a.gguf") 1572864 m1;
                                     listed (lit "b.gguf") 1048575 m2])])))
    /\ nearest_MB m1 1572864 /\ nearest_MB m2 1048575.
Proof.
  apply (models_lists_the_two_gguf_files
           (FsView true (inr [lit "a.gguf"; lit "notes.txt"; lit "b.gguf"])
              (fun f => if jsstring_eqb f (lit "a.gguf") then inr 1572864
                        else inr 1048575))
           [lit "a.gguf"; lit "notes.txt"; lit "b.gguf"]
           (lit "a.gguf") (lit "b.gguf") 1572864 1048575 initial).
  - reflexivity.
  - reflexivity.
  - reflexivity.
  - vm_compute. reflexivity.
  - vm_compute. reflexivity.
  - vm_compute. reflexivity.
Defined.

(** C5 (as amended).  When the models directory does not exist the
    endpoint answers with status 200 and an empty list.  When reading the
    directory fails, or when a file with the [.gguf] extension cannot be
    examined, the endpoint answers with status 500 and [{error}], the
    message of the error. *)
Theorem models_errors fs s :
  (existsSync fs = false ->
   fst (api_models fs s) =
   inr (Response 200 (BodyJson (JObj [(lit "models", JArr [])]))))
  /\ (forall e,
        existsSync fs = true -> readdirSync fs = inl e ->
        fst (api_models fs s) = inr (Response 500 (BodyError e)))
  /\ (forall e pre f post,
        existsSync fs = true -> readdirSync fs = inr (pre ++ f :: post) ->
        Forall (fun g => exists z, statSync fs g = inr z) (filter is_gguf pre) ->
        is_gguf f -> statSync fs f = inl e ->
        fst (api_models fs s) = inr (Response 500 (BodyError e))).
Proof.
  repeat split.
  - intros He. unfold api_models. munfold. by rewrite He.
  - intros e He Hr. unfold api_models. munfold. by rewrite He, Hr.
  - intros e pre f post He Hr Hall Hf Hs. unfold api_models. munfold.
    rewrite He, Hr. by rewrite (push_models_fails fs pre f post [] s e).
Qed.

Lemma models_errors_witness :
  fst (api_models (FsView true (inl (IOError (lit "EACCES"))) (fun _ => inr 0))
         initial) =
  inr (Response 500 (BodyError (IOError (lit "EACCES")))).
Proof.
  apply (models_errors
           (FsView true (inl (IOError (lit "EACCES"))) (fun _ => inr 0)) initial);
    reflexivity.
Defined.

(** C5 (as stated) fails: the directory exists and cannot be read; the
    answer is an error response with status 500, not an empty list. *)
Lemma models_read_error_is_not_an_empty_list :
  let fs := FsView true (inl (IOError (lit "EACCES"))) (fun _ => inr 0) in
  fst (api_models fs initial) =
    inr (Response 500 (BodyError (IOError (lit "EACCES"))))
  /\ fst (api_models fs initial) <>
       inr (Response 200 (BodyJson (JObj [(lit "models", JArr [])]))).
Proof. split; [reflexivity | discriminate]. Qed.

(** * Further properties of [server.js] and of its caller *)

(** ** Strings *)

Lemma startsWith_spec p s :
  startsWith p s = true <-> exists post, s = p ++ post.
Proof.
  revert s. induction p as [| a p IH]; intros s; simpl.
  - split; [intros _; by exists s | done].
  - destruct s as [| b s]; [split; [done | by intros [post H]] |].
    rewrite andb_true_iff, N.eqb_eq, IH. split.
    + intros [-> [post ->]]. by exists post.
    + intros [post H]. injection H as -> ->. split; [done | by exists post].
Qed.

Lemma includes_spec p s :
  includes p s = true <-> exists pre post, s = pre ++ p ++ post.
Proof.
  split.
  - induction s as [| c s IH]; simpl; rewrite orb_true_iff, startsWith_spec.
    + intros [[post H] | H]; [| done]. by exists [], post.
    + intros [[post H] | H]; [by exists [], post |].
      destruct (IH H) as (pre & post & ->). by exists (c :: pre), post.
  - intros (pre & post & ->). induction pre as [| c pre IH].
    + destruct (p ++ post) eqn:E; simpl; rewrite orb_true_iff; left;
        apply startsWith_spec; exists post; by rewrite <- E.
    + simpl. rewrite IH. apply orb_true_r.
Qed.

Lemma endsWith_spec p s :
  endsWith p s = true <-> exists base, s = base ++ p.
Proof.
  unfold endsWith. rewrite startsWith_spec. split.
  - intros [post H]. exists (rev post).
    apply (f_equal (@rev N)) in H. by rewrite rev_involutive, rev_app_distr,
      rev_involutive in H.
  - intros [base ->]. exists (rev base). by rewrite rev_app_distr.
Qed.

Lemma remove_first_prefix pat rest : remove_first pat (pat ++ rest) = rest.
Proof.
  assert (H : startsWith pat (pat ++ rest) = true)
    by (apply startsWith_spec; by exists rest).
  destruct (pat ++ rest) eqn:E; simpl; rewrite H; rewrite <- E;
    by rewrite drop_app_length.
Qed.

(** ** The command line *)

Lemma parse_argv_pair a v rest m :
  parse_argv (a :: v :: rest) m =
  parse_argv rest
    (if startsWith (lit "--") a
     then assign (remove_first (lit "--") a) (Some v) m
     else m).
Proof. reflexivity. Qed.

Lemma option_args_cons k v options :
  option_args ((k, v) :: options) = (lit "--" ++ k) :: v :: option_args options.
Proof. reflexivity. Qed.

Lemma parse_argv_option_args options rest m :
  parse_argv (option_args options ++ rest) m =
  parse_argv rest (foldl (fun m o => assign (fst o) (Some (snd o)) m) m options).
Proof.
  revert m. induction options as [| [k v] options IH]; intros m; [done |].
  rewrite option_args_cons, <- !app_comm_cons, parse_argv_pair.
  assert (Hs : startsWith (lit "--") (lit "--" ++ k) = true)
    by (apply startsWith_spec; by exists k).
  rewrite Hs, remove_first_prefix. apply IH.
Qed.

Lemma assign_other k v m : k <> lit "__proto__" -> assign k v m = <[k := v]> m.
Proof. intros Hk. unfold assign, jsstring_eqb. by rewrite bool_decide_eq_false_2. Qed.

Lemma assign_proto v m : assign (lit "__proto__") v m = m.
Proof. unfold assign, jsstring_eqb. by rewrite bool_decide_eq_true_2. Qed.

Lemma foldl_insert_list_to_map {V} (l : list (jsstring * V)) (m : gmap jsstring V) :
  foldl (fun m o => <[fst o := snd o]> m) m l = list_to_map (reverse l) ∪ m.
Proof.
  revert m. induction l as [| [k v] l IH]; intros m; simpl.
  - by rewrite (left_id_L ∅ (∪)).
  - rewrite IH, reverse_cons, list_to_map_app. simpl.
    rewrite <- (assoc_L (∪)). f_equal.
    by rewrite insert_empty, <- insert_union_singleton_l.
Qed.

(** The own properties after a command line of options: the options
    other than [--__proto__], a later one overriding an earlier one. *)
Lemma parse_argv_own options :
  parse_argv (option_args options) ∅ =
  list_to_map
    (reverse (map (fun o => (fst o, Some (snd o)))
                (filter (fun o => fst o <> lit "__proto__") options))).
Proof.
  rewrite <- (app_nil_r (option_args options)), parse_argv_option_args.
  simpl parse_argv.
  transitivity
    (foldl (fun (m : gmap jsstring (option jsstring))
                (o : jsstring * option jsstring) => <[fst o := snd o]> m) ∅
       (map (fun o : jsstring * jsstring => (fst o, Some (snd o)))
          (filter (fun o => fst o <> lit "__proto__") options))).
  - generalize (∅ : gmap jsstring (option jsstring)).
    induction options as [| [k v] options IH]; intros m; [done |].
    simpl foldl. destruct (decide (k = lit "__proto__")) as [-> | Hk].
    + rewrite assign_proto, filter_cons_False by (simpl; tauto). apply IH.
    + rewrite assign_other, filter_cons_True by done. simpl. apply IH.
  - by rewrite foldl_insert_list_to_map, (right_id_L ∅ (∪)).
Qed.

(** The last option of a name gives the own property of that name. *)
Lemma parse_argv_last pre k v post :
  k ∉ map fst post ->
  k <> lit "__proto__" ->
  parse_argv (option_args (pre ++ (k, v) :: post)) ∅ !! k = Some (Some v).
Proof.
  intros Hk Hp. rewrite parse_argv_own, filter_app, filter_cons_True by done.
  rewrite map_app, reverse_app. simpl. rewrite reverse_cons, <- app_assoc.
  rewrite list_to_map_app. apply lookup_union_Some_raw. right. split.
  - apply not_elem_of_list_to_map_1. rewrite fmap_reverse, elem_of_reverse.
    rewrite <- list_fmap_compose. intros H. apply Hk.
    apply list_elem_of_fmap in H as (o & -> & Ho). simpl.
    apply list_elem_of_filter in Ho as [_ Ho].
    apply list_elem_of_fmap. by exists o.
  - simpl. by rewrite lookup_insert_eq.
Qed.

(** A name that no option has is not an own property. *)
Lemma parse_argv_absent options k :
  k ∉ map fst options -> parse_argv (option_args options) ∅ !! k = None.
Proof.
  intros Hk. rewrite parse_argv_own. apply not_elem_of_list_to_map_1.
  rewrite fmap_reverse, elem_of_reverse, <- list_fmap_compose.
  intros H. apply Hk. apply list_elem_of_fmap in H as (o & -> & Ho). simpl.
  apply list_elem_of_filter in Ho as [_ Ho].
  apply list_elem_of_fmap. by exists o.
Qed.

(** [__proto__] never becomes an own property. *)
Lemma parse_argv_proto options :
  parse_argv (option_args options) ∅ !! lit "__proto__" = None.
Proof.
  rewrite parse_argv_own. apply not_elem_of_list_to_map_1.
  rewrite fmap_reverse, elem_of_reverse, <- list_fmap_compose.
  intros H. apply list_elem_of_fmap in H as (o & Heq & Ho). simpl in Heq.
  apply list_elem_of_filter in Ho as [Hne _]. by apply Hne.
Qed.

(** X1.  For a command line made of options [--k v], reading a name from
    the parsed arguments gives the value of the last option so named; a
    name that no option has reads [undefined], unless it is one of the
    names every object inherits; and [--__proto__ v] stores nothing:
    that name reads what is inherited whatever the options are. *)
Theorem parse_argv_options options :
  (forall pre k v post,
     options = pre ++ (k, v) :: post -> k ∉ map fst post ->
     k <> lit "__proto__" ->
     read_arg (parse_argv (option_args options) ∅) k = ArgString v)
  /\ (forall k, k ∉ map fst options -> k ∉ Object_prototype ->
        read_arg (parse_argv (option_args options) ∅) k = ArgUndefined)
  /\ read_arg (parse_argv (option_args options) ∅) (lit "__proto__") = ArgInherited.
Proof.
  unfold read_arg. split; [| split].
  - intros pre k v post -> Hk Hp. by rewrite parse_argv_last.
  - intros k Hk Hp. rewrite parse_argv_absent by done.
    by rewrite bool_decide_eq_false_2.
  - by rewrite parse_argv_proto.
Qed.

Lemma parse_argv_options_witness :
  read_arg
    (parse_argv (option_args [(lit "port", lit "4000"); (lit "host", lit "::1");
                              (lit "port", lit "5000")]) ∅) (lit "port") =
  ArgString (lit "5000").
Proof.
  destruct (parse_argv_options
              [(lit "port", lit "4000"); (lit "host", lit "::1");
               (lit "port", lit "5000")]) as (H & _).
  apply (H [(lit "port", lit "4000"); (lit "host", lit "::1")]
           (lit "port") (lit "5000") []).
  - reflexivity.
  - simpl. apply not_elem_of_nil.
  - discriminate.
Defined.

Lemma parse_argv_single a m :
  parse_argv [a] m =
  if startsWith (lit "--") a then assign (remove_first (lit "--") a) None m else m.
Proof. reflexivity. Qed.

Lemma parse_argv_shifted options v m :
  startsWith (lit "--") v = false ->
  Forall (fun o => startsWith (lit "--") (snd o) = false) options ->
  parse_argv (v :: option_args options) m = m.
Proof.
  intros Hv Hall. revert v m Hv.
  induction Hall as [| [k v'] options Hv' _ IH]; intros v m Hv.
  - simpl option_args. by rewrite parse_argv_single, Hv.
  - rewrite option_args_cons, parse_argv_pair, Hv. by apply IH.
Qed.

(** X2.  A flag without a value (other than [--__proto__], which stores
    nothing) in front of well-formed options takes the name of the next
    option as its value, and every option after it is lost: the loop
    steps by two, so from then on it looks for names where the values
    are. *)
Theorem valueless_flag_swallows_the_options f options :
  f <> lit "__proto__" ->
  Forall (fun o => startsWith (lit "--") (snd o) = false) options ->
  parse_argv ((lit "--" ++ f) :: option_args options) ∅ =
  {[ f := head (option_args options) ]}.
Proof.
  intros Hf Hall.
  assert (Hs : startsWith (lit "--") (lit "--" ++ f) = true)
    by (apply startsWith_spec; by exists f).
  destruct Hall as [| [k v] options Hv Hall].
  - simpl option_args.
    by rewrite parse_argv_single, Hs, remove_first_prefix, assign_other.
  - rewrite option_args_cons, parse_argv_pair, Hs, remove_first_prefix.
    rewrite parse_argv_shifted by done. by rewrite assign_other.
Qed.

Lemma valueless_flag_swallows_the_options_witness :
  parse_argv ((lit "--" ++ lit "verbose")
                :: option_args [(lit "port", lit "4000"); (lit "host", lit "::1")]) ∅ =
  {[ lit "verbose" :=
       head (option_args [(lit "port", lit "4000"); (lit "host", lit "::1")]) ]}.
Proof.
  apply (valueless_flag_swallows_the_options (lit "verbose")
           [(lit "port", lit "4000"); (lit "host", lit "::1")]).
  - discriminate.
  - repeat constructor.
Defined.

(** ** The server as [cli.js] starts it *)

Lemma decimal_nonempty n : decimal n <> [].
Proof.
  unfold decimal.
  assert (H : N.to_uint n <> Nil).
  { destruct n as [| p]; [discriminate | apply Unsigned.to_uint_nonnil]. }
  by destruct (N.to_uint n).
Qed.

(** X3.  However [cli.js] is configured, the server it starts as a daemon
    takes [verbose] from the environment alone and its WebSocket port from
    the environment or the default 8081: [--verbose] is passed without a
    value, so the server reads [undefined] for it, and [--ws-port] is not
    passed at all. *)
Theorem daemon_conveys_neither_verbose_nor_ws_port c env :
  verbose (load_config (parse_argv (daemon_args c) ∅) env) = is_true (env "VERBOSE")
  /\ wsPort (load_config (parse_argv (daemon_args c) ∅) env) =
       pick None (env "WS_PORT") (SNum 8081).
Proof.
  destruct c as [p lp wp m cs gl pa h lf v]. unfold daemon_args. simpl.
  generalize (toString p) (toString lp) (toString cs) (toString gl) (toString pa).
  intros sp slp scs sgl spa.
  destruct v; vm_compute; split; reflexivity.
Qed.

(** X4.  The settings [cli.js] passes with a value reach the server when
    the value is not the empty string: the server then runs with the
    ports, model, context size, GPU layers, parallelism, host and log
    file of the CLI, each as a string, whatever the environment holds. *)
Theorem daemon_conveys_the_settings c env :
  Forall (fun s => s <> [])
    [toString (c_port c); toString (c_llamaPort c); c_model c;
     toString (c_ctxSize c); toString (c_nGpuLayers c);
     toString (c_parallel c); c_host c; c_logFile c] ->
  let cfg := load_config (parse_argv (daemon_args c) ∅) env in
  port cfg = SStr (toString (c_port c))
  /\ llamaPort cfg = SStr (toString (c_llamaPort c))
  /\ model cfg = SStr (c_model c)
  /\ ctxSize cfg = SStr (toString (c_ctxSize c))
  /\ nGpuLayers cfg = SStr (toString (c_nGpuLayers c))
  /\ parallel cfg = SStr (toString (c_parallel c))
  /\ host cfg = SStr (c_host c)
  /\ logFile cfg = SStr (c_logFile c).
Proof.
  destruct c as [p lp wp m cs gl pa h lf v]. unfold daemon_args. simpl.
  generalize (toString p) (toString lp) (toString cs) (toString gl) (toString pa).
  intros sp slp scs sgl spa Hall.
  repeat match goal with
         | H : Forall _ (_ :: _) |- _ => apply Forall_cons in H as [? H]
         end.
  destruct sp, slp, m, scs, sgl, spa, h, lf; try done.
  destruct v; vm_compute; repeat split; reflexivity.
Qed.

Lemma daemon_conveys_the_settings_witness :
  port (load_config
          (parse_argv
             (daemon_args
                (CliConfig (SNum 3000) (SNum 8080) (SNum 8081) (lit "m.gguf")
                   (SNum 4096) (SNum 20) (SNum 4) (lit "0.0.0.0")
                   (lit "./logs/x.log") true)) ∅)
          (fun _ => None)) =
  SStr (lit "3000").
Proof.
  apply (daemon_conveys_the_settings
           (CliConfig (SNum 3000) (SNum 8080) (SNum 8081) (lit "m.gguf")
              (SNum 4096) (SNum 20) (SNum 4) (lit "0.0.0.0")
              (lit "./logs/x.log") true)
           (fun _ => None)).
  repeat constructor; discriminate.
Defined.

(** ** CORS *)

(** X5.  The origin check is a substring test: an origin is allowed
    exactly when it is absent or empty, or when [localhost] or
    [127.0.0.1] occurs anywhere in it, in the host or elsewhere. *)
Theorem cors_allows_by_substring origin :
  cors_origin origin = true <->
  origin = None \/ origin = Some []
  \/ exists pre post,
       origin = Some (pre ++ lit "localhost" ++ post)
       \/ origin = Some (pre ++ lit "127.0.0.1" ++ post).
Proof.
  unfold cors_origin. destruct origin as [o |]; simpl.
  - rewrite orb_true_iff, orb_true_iff, !includes_spec. split.
    + intros [H | [(pre & post & ->) | (pre & post & ->)]].
      * right. left. destruct o; [done |]. discriminate H.
      * right. right. exists pre, post. by left.
      * right. right. exists pre, post. by right.
    + intros [H | [H | (pre & post & [H | H])]]; try discriminate H.
      * injection H as ->. by left.
      * injection H as ->. right. left. by exists pre, post.
      * injection H as ->. right. right. by exists pre, post.
  - split; [by left | done].
Qed.

(** ** What the handlers leave alone *)

Lemma sends_only_refl k s : sends_only k s s.
Proof.
  repeat split; try done. exists []. symmetry. apply alter_id.
  intros w _. apply deliver_nil.
Qed.

Lemma sends_only_ws_send k s0 m : preserves (sends_only k s0) (ws_send k m).
Proof.
  intros s ([msgs E] & ? & ? & ?). repeat split; try done.
  exists (msgs ++ [m]). simpl. rewrite E, alter_alter_eq.
  apply alter_ext. intros w _. simpl. apply deliver_app.
Qed.

Lemma sends_only_modify k s0 f :
  (forall s, sockets (f s) = sockets s
             /\ activeConnections (f s) = activeConnections s
             /\ heartbeats (f s) = heartbeats s
             /\ next_ws (f s) = next_ws s) ->
  preserves (sends_only k s0) (modify f).
Proof.
  intros Hf s (E & ? & ? & ?). unfold sends_only. simpl.
  destruct (Hf s) as (-> & -> & -> & ->). by repeat split.
Qed.

(** A piece of handler code that sends only on socket [k]. *)
Lemma sends_only_pieces k s0 cid t :
  (forall line, preserves (sends_only k s0) (on_line k cid line))
  /\ (forall chunk, preserves (sends_only k s0) (on_chunk k cid chunk))
  /\ (forall e, preserves (sends_only k s0) (catch_block k cid e))
  /\ (forall e, preserves (sends_only k s0) (finish t;; catch_block k cid e))
  /\ (forall a, preserves (sends_only k s0) (await_at t a))
  /\ preserves (sends_only k s0) (finish t).
Proof.
  split; [| split; [| split; [| split; [| split]]]]; intros;
    unfold on_chunk, on_line, catch_block, send_request, suspend, await_at,
      finish, parse, prop, lift, logger_info, logger_debug, logger_error,
      logger_log;
    repeat first
      [ apply preserves_ret
      | apply preserves_throw
      | apply sends_only_ws_send
      | apply sends_only_modify; intros ?; repeat split; reflexivity
      | apply preserves_bind; [| intros ?]
      | apply preserves_try_catch; [| intros ?]
      | apply preserves_forEach; intros ?
      | match goal with
        | |- preserves _ (match ?x with _ => _ end) => destruct x
        | |- preserves _ (if ?x then _ else _) => destruct x
        end ].
Qed.

Lemma exec_get_bind {A} (f : server -> M A) s :
  exec (get ≫= f) s = exec (f s) s.
Proof. reflexivity. Qed.

Lemma handle_sends_only e s :
  is_traffic e = true -> exists k, sends_only k s (exec (handle e) s).
Proof.
  destruct e as [cid | k msg | t r | t r | k | k | k | k]; try done; intros _;
    simpl handle.
  - exists k. unfold on_message. rewrite exec_get_bind.
    destruct (sockets s !! k) as [w |]; [| apply sends_only_refl].
    destruct (sends_only_pieces k s (clientId w) 0) as (_ & _ & Hc & _).
    unfold exec.
    apply (preserves_try_catch (sends_only k s)); [| apply Hc | apply sends_only_refl].
    unfold send_request, suspend, parse, prop, lift, logger_debug, logger_log.
    repeat first
      [ apply preserves_ret
      | apply preserves_throw
      | apply sends_only_modify; intros ?; repeat split; reflexivity
      | apply preserves_bind; [| intros ?]
      | match goal with
        | |- preserves _ (match ?x with _ => _ end) => destruct x
        | |- preserves _ (if ?x then _ else _) => destruct x
        end ].
  - unfold on_fetch. rewrite exec_get_bind.
    destruct (tasks s !! t) as [[k []] |]; try (exists 0%nat; apply sends_only_refl).
    exists k. fold (cid_of k s).
    destruct (sends_only_pieces k s (cid_of k s) t) as (_ & _ & _ & Hf & Ha & _).
    unfold exec.
    apply (preserves_try_catch (sends_only k s)); [| apply Hf | apply sends_only_refl].
    destruct r as [e | st hb]; [apply preserves_throw |].
    destruct (negb (response_ok st)); [apply preserves_throw |].
    destruct (negb hb); [apply preserves_throw | apply Ha].
  - unfold on_read. rewrite exec_get_bind.
    destruct (tasks s !! t) as [[k []] |]; try (exists 0%nat; apply sends_only_refl).
    exists k. fold (cid_of k s).
    destruct (sends_only_pieces k s (cid_of k s) t) as (_ & Hc & _ & Hf & _ & Hd).
    unfold exec.
    apply (preserves_try_catch (sends_only k s)); [| apply Hf | apply sends_only_refl].
    destruct r as [e | | chunk]; [apply preserves_throw | apply Hd | apply Hc].
  - exists k. unfold on_error. rewrite exec_get_bind.
    destruct (sockets s !! k) as [w |]; [| apply sends_only_refl].
    unfold exec.
    apply (sends_only_modify k s); [| apply sends_only_refl].
    intros ?; repeat split; reflexivity.
  - exists k. unfold on_heartbeat. rewrite exec_get_bind.
    destruct (bool_decide _); [| apply sends_only_refl].
    destruct (sockets s !! k) as [w |]; [| apply sends_only_refl].
    destruct (readyState w); try apply sends_only_refl.
    apply (sends_only_ws_send k s MsgPing s), sends_only_refl.
Qed.

(** A run of such events leaves the registry as it is. *)
Lemma run_traffic_registry es s :
  Forall (fun e => is_traffic e = true) es ->
  activeConnections (exec (run es) s) = activeConnections s.
Proof.
  intros Hall. revert s. induction Hall as [| e es He _ IH]; intros s; [done |].
  rewrite run_cons, IH.
  by destruct (handle_sends_only e s He) as (k & _ & -> & _).
Qed.

(** X9.  No client message, settled upstream promise, socket error or
    heartbeat changes the registry of connections or the set of armed
    heartbeat timers, in any state: these change on connection and on
    close only. *)
Theorem traffic_leaves_the_registry_alone es s :
  Forall (fun e => is_traffic e = true) es ->
  activeConnections (exec (run es) s) = activeConnections s
  /\ heartbeats (exec (run es) s) = heartbeats s.
Proof.
  intros Hall. revert s. induction Hall as [| e es He _ IH]; intros s; [done |].
  rewrite run_cons. destruct (IH (exec (handle e) s)) as [-> ->].
  destruct (handle_sends_only e s He) as (k & _ & -> & -> & _). done.
Qed.

Lemma traffic_leaves_the_registry_alone_witness :
  activeConnections
    (exec (run [EvMessage 0 (typed_message "chat");
                EvFetch 1 (FetchResponse 500 true);
                EvHeartbeat 0; EvError 0;
                EvRead 0 (ReadChunk (data_line sentinel ++ [LF]))]) streaming0) =
  activeConnections streaming0.
Proof.
  apply (traffic_leaves_the_registry_alone
           [EvMessage 0 (typed_message "chat");
            EvFetch 1 (FetchResponse 500 true);
            EvHeartbeat 0; EvError 0;
            EvRead 0 (ReadChunk (data_line sentinel ++ [LF]))] streaming0).
  repeat constructor.
Defined.

(** ** The life of a connection *)

Lemma on_connection_state cid s :
  exec (on_connection cid) s =
  Server (<[next_ws s := Socket cid OPEN [MsgInfo cid]]> (sockets s))
         (<[cid := next_ws s]> (activeConnections s))
         ({[next_ws s]} ∪ heartbeats s) (tasks s) (requests s)
         (S (next_ws s)) (next_task s)
         (log s ++ [(INFO, "New WebSocket client connected: " +:+ cid)]).
Proof.
  unfold exec, on_connection. munfold. simpl. unfold set_sockets, set_log. simpl.
  f_equal. by rewrite alter_insert_eq.
Qed.

Lemma on_close_state k w s :
  sockets s !! k = Some w ->
  exec (on_close k) s =
  Server (<[k := Socket (clientId w) CLOSED (sent w)]> (sockets s))
         (delete (clientId w) (activeConnections s))
         (heartbeats s ∖ {[k]}) (tasks s) (requests s)
         (next_ws s) (next_task s)
         (log s ++ [(INFO, "WebSocket client disconnected: " +:+ clientId w)]).
Proof. intros Hw. unfold exec, on_close. munfold. by rewrite Hw. Qed.

Lemma on_close_absent k s :
  sockets s !! k = None -> exec (on_close k) s = s.
Proof. intros Hw. unfold exec, on_close. munfold. by rewrite Hw. Qed.

Lemma evolves_refl w : evolves w w.
Proof. by repeat split. Qed.

Lemma evolves_trans w1 w2 w3 : evolves w1 w2 -> evolves w2 w3 -> evolves w1 w3.
Proof.
  intros (Hc & Hp & Hn) (Hc' & Hp' & Hn'). repeat split.
  - congruence.
  - by etrans.
  - destruct (Hn H) as [E1 N1]. destruct (Hn' N1) as [E2 N2]. congruence.
  - destruct (Hn H) as [E1 N1]. by destruct (Hn' N1).
Qed.

Lemma evolves_deliver msgs w : evolves w (deliver msgs w).
Proof.
  destruct w as [c [] m]; unfold deliver; simpl; repeat split; try done.
  by apply prefix_app_r.
Qed.

(** One event: the sockets that exist evolve, and a socket that appears
    is the one of a new connection. *)
Lemma handle_sockets e s :
  bounded s ->
  bounded (exec (handle e) s)
  /\ (forall k w, sockets s !! k = Some w ->
        exists w', sockets (exec (handle e) s) !! k = Some w' /\ evolves w w')
  /\ (forall k w', sockets s !! k = None ->
        sockets (exec (handle e) s) !! k = Some w' ->
        w' = Socket (clientId w') OPEN [MsgInfo (clientId w')]).
Proof.
  intros Hb. unfold bounded in *. destruct (is_traffic e) eqn:Ht.
  - destruct (handle_sends_only e s Ht) as (k0 & [msgs E] & _ & _ & En).
    rewrite E. repeat split.
    + intros k. rewrite En, lookup_alter_is_Some. apply Hb.
    + intros k w Hw. destruct (decide (k0 = k)) as [-> |].
      * rewrite lookup_alter_eq, Hw. eexists. split; [done |]. apply evolves_deliver.
      * rewrite lookup_alter_ne, Hw by done. eexists. split; [done |]. apply evolves_refl.
    + intros k w' Hn Hw'.
      assert (is_Some (sockets s !! k)) as [? ?]; [| congruence].
      apply (lookup_alter_is_Some (deliver msgs) (sockets s) k0 k). by rewrite Hw'.
  - destruct e as [cid | | | | k0 | k0 | |]; try done; simpl handle.
    + rewrite on_connection_state. simpl. repeat split.
      * intros k. rewrite lookup_insert_is_Some'. intros [-> | H]; [lia |].
        specialize (Hb k H). lia.
      * intros k w Hw. rewrite lookup_insert_ne.
        -- eexists. split; [done |]. apply evolves_refl.
        -- specialize (Hb k (mk_is_Some _ _ Hw)). lia.
      * intros k w' Hn. rewrite lookup_insert. case_decide; [| congruence].
        by intros [= <-].
    + unfold exec, on_closing. simpl. repeat split.
      * intros k. rewrite lookup_alter_is_Some. apply Hb.
      * intros k w Hw. destruct (decide (k0 = k)) as [-> |].
        -- rewrite lookup_alter_eq, Hw. simpl. eexists. split; [done |].
           destruct w as [c [] m]; by repeat split.
        -- rewrite lookup_alter_ne, Hw by done. eexists. split; [done |].
           apply evolves_refl.
      * intros k w' Hn Hw'.
        assert (is_Some (sockets s !! k)) as [? ?]; [| congruence].
        eapply lookup_alter_is_Some. by rewrite Hw'.
    + destruct (sockets s !! k0) as [w0 |] eqn:Hw0.
      * rewrite (on_close_state k0 w0 s Hw0). simpl. repeat split.
        -- intros k. rewrite lookup_insert_is_Some'. intros [-> | H]; [| by apply Hb].
           apply Hb. by rewrite Hw0.
        -- intros k w Hw. destruct (decide (k0 = k)) as [-> |].
           ++ rewrite lookup_insert_eq. eexists. split; [done |].
              assert (w = w0) as -> by congruence.
              destruct w0 as [c [] m]; by repeat split.
           ++ rewrite lookup_insert_ne, Hw by done. eexists. split; [done |].
              apply evolves_refl.
        -- intros k w' Hn. rewrite lookup_insert. case_decide; congruence.
      * rewrite (on_close_absent k0 s Hw0). repeat split; try done.
        -- intros k w Hw. eexists. split; [done |]. apply evolves_refl.
        -- congruence.
Qed.

Lemma run_snoc es e s :
  exec (run (es ++ [e])) s = exec (handle e) (exec (run es) s).
Proof. by rewrite run_app, run_cons, run_nil. Qed.

Lemma run_sockets es s :
  bounded s ->
  bounded (exec (run es) s)
  /\ (forall k w, sockets s !! k = Some w ->
        exists w', sockets (exec (run es) s) !! k = Some w' /\ evolves w w').
Proof.
  intros Hb. induction es as [| e es IH] using rev_ind.
  - split; [done |]. intros k w Hw. exists w. split; [done | apply evolves_refl].
  - destruct IH as [Hb' IH]. rewrite run_snoc.
    destruct (handle_sockets e _ Hb') as (Hb'' & He & _). split; [done |].
    intros k w Hw. destruct (IH k w Hw) as (w1 & Hw1 & E1).
    destruct (He k w1 Hw1) as (w2 & Hw2 & E2).
    exists w2. split; [done |]. by apply (evolves_trans w w1 w2).
Qed.

Lemma bounded_initial : bounded initial.
Proof. intros k [w Hw]. simpl in Hw. by rewrite lookup_empty in Hw. Qed.

Lemma bounded_reach es : bounded (reach es).
Proof. apply run_sockets, bounded_initial. Qed.

Lemma reach_app es1 es2 : reach (es1 ++ es2) = exec (run es2) (reach es1).
Proof. apply run_app. Qed.

(** X11.  Once a connection has left the OPEN state, nothing is sent on
    it any more, whatever happens next: no token, no [done], no error,
    no ping. *)
Theorem nothing_is_sent_after_open es1 es2 k w :
  sockets (reach es1) !! k = Some w ->
  readyState w <> OPEN ->
  sent_to k (reach (es1 ++ es2)) = sent w.
Proof.
  intros Hw Ho. rewrite reach_app.
  destruct (run_sockets es2 _ (bounded_reach es1)) as [_ H].
  destruct (H k w Hw) as (w' & Hw' & _ & _ & Hn).
  unfold sent_to. rewrite Hw'. by destruct (Hn Ho).
Qed.

Lemma nothing_is_sent_after_open_witness :
  sent_to 0
    (reach ([EvConnection "c1"; EvMessage 0 (typed_message "chat");
             EvFetch 0 (FetchResponse 200 true); EvClose 0]
            ++ [EvRead 0 (ReadChunk (data_line (content_payload "a") ++ [LF]));
                EvHeartbeat 0; EvMessage 0 (lit "{")])) =
  [MsgInfo "c1"].
Proof.
  apply (nothing_is_sent_after_open
           [EvConnection "c1"; EvMessage 0 (typed_message "chat");
            EvFetch 0 (FetchResponse 200 true); EvClose 0]
           [EvRead 0 (ReadChunk (data_line (content_payload "a") ++ [LF]));
            EvHeartbeat 0; EvMessage 0 (lit "{")]
           0 (Socket "c1" CLOSED [MsgInfo "c1"])).
  - vm_compute. reflexivity.
  - discriminate.
Defined.

(** X12.  The first message on every connection is the [info] message
    that carries the identifier of this connection. *)
Theorem first_message_is_the_welcome es k w :
  sockets (reach es) !! k = Some w ->
  exists rest, sent w = MsgInfo (clientId w) :: rest.
Proof.
  revert k w. induction es as [| e es IH] using rev_ind; intros k w Hw.
  - unfold reach in Hw. simpl in Hw. by rewrite lookup_empty in Hw.
  - rewrite (reach_app es [e]), run_cons, run_nil in Hw.
    destruct (handle_sockets e (reach es) (bounded_reach es)) as (_ & He & Hnew).
    destruct (sockets (reach es) !! k) as [w0 |] eqn:Hw0.
    + destruct (He k w0 Hw0) as (w' & Hw' & Hc & [post Hp] & _).
      assert (w' = w) as -> by congruence.
      destruct (IH k w0 Hw0) as [rest Hr].
      exists (rest ++ post). by rewrite Hp, Hr, Hc.
    + rewrite (Hnew k w Hw0 Hw). simpl. by exists [].
Qed.

Lemma first_message_is_the_welcome_witness :
  exists rest,
    sent (Socket "c1" OPEN [MsgInfo "c1"; MsgError SyntaxError]) =
    MsgInfo (clientId (Socket "c1" OPEN [MsgInfo "c1"; MsgError SyntaxError])) :: rest.
Proof.
  apply (first_message_is_the_welcome
           [EvConnection "c1"; EvMessage 0 (lit "{")] 0
           (Socket "c1" OPEN [MsgInfo "c1"; MsgError SyntaxError])).
  vm_compute. reflexivity.
Defined.

Lemma registry_sound_handle e s :
  bounded s -> registry_sound s -> registry_sound (exec (handle e) s).
Proof.
  intros Hb Hr. unfold registry_sound in *. destruct (is_traffic e) eqn:Ht.
  - destruct (handle_sends_only e s Ht) as (k0 & [msgs E] & Ea & _).
    rewrite Ea, E. intros cid k Hk. destruct (Hr cid k Hk) as (w & Hw & Hc & Hn).
    destruct (decide (k0 = k)) as [-> |].
    + exists (deliver msgs w). rewrite lookup_alter_eq, Hw.
      by rewrite deliver_clientId, deliver_readyState.
    + exists w. by rewrite lookup_alter_ne.
  - destruct e as [cid0 | | | | k0 | k0 | |]; try done; simpl handle.
    + rewrite on_connection_state. simpl. intros cid k.
      rewrite lookup_insert. case_decide as Hd.
      * intros [= <-]. subst cid. eexists. by rewrite lookup_insert_eq.
      * intros Hk. destruct (Hr cid k Hk) as (w & Hw & Hc & Hn).
        exists w. rewrite lookup_insert_ne; [done |].
        specialize (Hb k (mk_is_Some _ _ Hw)). lia.
    + unfold exec, on_closing. simpl. intros cid k Hk.
      destruct (Hr cid k Hk) as (w & Hw & Hc & Hn).
      destruct (decide (k0 = k)) as [-> |].
      * rewrite lookup_alter_eq, Hw. simpl. eexists. split; [done |].
        by destruct w as [c [] m].
      * exists w. by rewrite lookup_alter_ne.
    + destruct (sockets s !! k0) as [w0 |] eqn:Hw0.
      * rewrite (on_close_state k0 w0 s Hw0). simpl. intros cid k.
        rewrite lookup_delete. case_decide as Hd; [done |]. intros Hk.
        destruct (Hr cid k Hk) as (w & Hw & Hc & Hn).
        exists w. rewrite lookup_insert_ne; [done |].
        intros ->. congruence.
      * by rewrite (on_close_absent k0 s Hw0).
Qed.

(** X13.  In every state the server reaches, each identifier in the
    registry names a socket that exists, was accepted under this
    identifier and is not closed: the registry never counts a closed
    connection. *)
Theorem registry_names_live_sockets es cid k :
  activeConnections (reach es) !! cid = Some k ->
  exists w,
    sockets (reach es) !! k = Some w
    /\ clientId w = cid
    /\ readyState w <> CLOSED.
Proof.
  revert cid k. change (registry_sound (reach es)).
  induction es as [| e es IH] using rev_ind.
  - intros cid k Hk. unfold reach in Hk. simpl in Hk. by rewrite lookup_empty in Hk.
  - rewrite (reach_app es [e]), run_cons, run_nil.
    apply registry_sound_handle; [apply bounded_reach | done].
Qed.

Lemma registry_names_live_sockets_witness :
  exists w,
    sockets (reach [EvConnection "c1"; EvConnection "c2"; EvClose 0; EvClosing 1])
      !! 1%nat = Some w
    /\ clientId w = "c2"
    /\ readyState w <> CLOSED.
Proof.
  apply (registry_names_live_sockets
           [EvConnection "c1"; EvConnection "c2"; EvClose 0; EvClosing 1] "c2" 1).
  vm_compute. reflexivity.
Defined.

Lemma health_connected_size cfg now s :
  health_connected cfg now s =
  Some (JNum (num_of_N (N.of_nat (size (activeConnections s))))).
Proof. reflexivity. Qed.

(** X14.  A connection under an identifier that is not registered raises
    the count that [GET /api/health] reports by one, and its close brings
    the registry and the count back to what they were, whatever messages,
    upstream events and heartbeats came in between. *)
Theorem connect_then_close_restores_the_registry es0 cid es cfg now :
  activeConnections (reach es0) !! cid = None ->
  Forall (fun e => is_traffic e = true) es ->
  let s := reach es0 in
  let s1 := exec (run (EvConnection cid :: es)) s in
  let s2 := exec (handle (EvClose (next_ws s))) s1 in
  health_connected cfg now s1 =
    Some (JNum (num_of_N (N.of_nat (S (size (activeConnections s))))))
  /\ activeConnections s2 = activeConnections s
  /\ health_connected cfg now s2 = health_connected cfg now s.
Proof.
  intros Hc Hall s s1 s2.
  assert (E1 : activeConnections s1 = <[cid := next_ws s]> (activeConnections s)).
  { subst s1. rewrite run_cons.
    rewrite (run_traffic_registry es
               (exec (handle (EvConnection cid)) s) Hall).
    simpl handle. by rewrite on_connection_state. }
  assert (Hw : exists w, sockets s1 !! next_ws s = Some w /\ clientId w = cid).
  { subst s1. rewrite run_cons.
    destruct (handle_sockets (EvConnection cid) s (bounded_reach es0)) as (Hb & _).
    destruct (run_sockets es _ Hb) as [_ H].
    destruct (H (next_ws s) (Socket cid OPEN [MsgInfo cid])) as (w & Hw & Hcl & _).
    - simpl handle. rewrite on_connection_state. simpl. apply lookup_insert_eq.
    - by exists w. }
  destruct Hw as (w & Hw & Hcl).
  assert (E2 : activeConnections s2 = activeConnections s).
  { subst s2. simpl handle. rewrite (on_close_state _ w s1 Hw). simpl.
    rewrite E1, Hcl. by apply delete_insert_id. }
  rewrite !health_connected_size, E1, E2.
  by rewrite map_size_insert_None.
Qed.

Lemma connect_then_close_restores_the_registry_witness :
  activeConnections
    (exec (handle (EvClose (next_ws (reach [EvConnection "c1"]))))
       (exec (run (EvConnection "c2"
                     :: [EvMessage 1 (typed_message "chat"); EvHeartbeat 1]))
          (reach [EvConnection "c1"]))) =
  activeConnections (reach [EvConnection "c1"]).
Proof.
  apply (connect_then_close_restores_the_registry
           [EvConnection "c1"] "c2"
           [EvMessage 1 (typed_message "chat"); EvHeartbeat 1]
           (load_config ∅ (fun _ => None)) []).
  - vm_compute. reflexivity.
  - repeat constructor.
Defined.

Lemma deliver_not_open msgs w : readyState w <> OPEN -> deliver msgs w = w.
Proof. by destruct w as [c [] m]. Qed.

(** X15.  The close of a connection does not end its generation: the
    handler stays suspended at its read, every later chunk of the upstream
    stream is still read, split and parsed (one log line per chunk at
    least), and nothing of it is delivered.  Only the end or the failure
    of the upstream stream ends the generation. *)
Theorem close_does_not_cancel_the_generation s t k w chunks :
  tasks s !! t = Some (Task k AwaitRead) ->
  sockets s !! k = Some w ->
  let s1 := exec (handle (EvClose k)) s in
  let s2 := exec (run (reads t chunks)) s1 in
  tasks s1 = tasks s
  /\ tasks s2 !! t = Some (Task k AwaitRead)
  /\ sockets s2 = sockets s1
  /\ (length (log s1) + length chunks <= length (log s2))%nat.
Proof.
  intros Ht Hw s1 s2. subst s2 s1. simpl handle.
  rewrite (on_close_state k w s Hw).
  set (s1 := Server _ _ _ _ _ _ _ _).
  assert (Ht1 : tasks s1 !! t = Some (Task k AwaitRead)) by done.
  split; [done |].
  assert (Hlog : forall cs s', tasks s' !! t = Some (Task k AwaitRead) ->
            tasks (exec (run (reads t cs)) s') = tasks s'
            /\ (exists msgs, sockets (exec (run (reads t cs)) s') =
                             alter (deliver msgs) k (sockets s'))
            /\ (length (log s') + length cs <= length (log (exec (run (reads t cs)) s')))%nat).
  { induction cs as [| c cs IH]; intros s' Hs'.
    - change (reads t []) with (@nil event). rewrite !run_nil.
      repeat split; [| simpl; lia]. exists []. symmetry. apply alter_id.
      intros ? _. apply deliver_nil.
    - change (reads t (c :: cs)) with (EvRead t (ReadChunk c) :: reads t cs).
      rewrite run_cons. simpl handle.
      assert (Ec : exec (on_read t (ReadChunk c)) s' =
                   emit k (flat_map line_msgs (split LF c))
                     (chunk_logs (cid_of k s') c) s').
      { unfold exec. by rewrite (on_read_chunk t k c s' Hs'). }
      rewrite Ec.
      destruct (IH (emit k (flat_map line_msgs (split LF c))
                      (chunk_logs (cid_of k s') c) s')) as (E1 & [msgs E2] & E3);
        [done |].
      rewrite E1, E2. repeat split.
      + eexists. simpl. rewrite alter_alter_eq. apply alter_ext.
        intros ? _. simpl. apply deliver_app.
      + simpl in E3. rewrite length_app in E3. simpl in *. lia. }
  destruct (Hlog chunks s1 Ht1) as (E1 & [msgs E2] & E3).
  rewrite E1, E2. repeat split; try done.
  apply alter_id. intros w' Hw'. apply deliver_not_open.
  subst s1. simpl in Hw'. rewrite lookup_insert_eq in Hw'. by injection Hw' as <-.
Qed.

Lemma close_does_not_cancel_the_generation_witness :
  tasks
    (exec (run (reads 0 [data_line (content_payload "a") ++ [LF];
                         data_line (content_payload "b") ++ [LF]]))
       (exec (handle (EvClose 0)) streaming0)) !! 0%nat =
  Some (Task 0 AwaitRead).
Proof.
  apply (close_does_not_cancel_the_generation streaming0 0 0
           (Socket "c1" OPEN [MsgInfo "c1"])
           [data_line (content_payload "a") ++ [LF];
            data_line (content_payload "b") ++ [LF]]).
  - vm_compute. reflexivity.
  - vm_compute. reflexivity.
Defined.

(** ** The ends of a generation *)

Lemma on_fetch_failure s t k r err :
  tasks s !! t = Some (Task k AwaitFetch) ->
  r = FetchRejected err
  \/ (exists st hb, r = FetchResponse st hb /\ response_ok st = false
                    /\ err = LlamaStatusError st)
  \/ (exists st, r = FetchResponse st false /\ response_ok st = true
                 /\ err = TypeError) ->
  exec (on_fetch t r) s =
  emit k [MsgError err] [(ERROR, "WebSocket error for " +:+ cid_of k s +:+ ":")]
    (set_tasks (delete t (tasks s)) s).
Proof.
  intros Ht Hr. unfold exec, on_fetch, finish, catch_block. munfold. rewrite Ht.
  fold (cid_of k s).
  destruct Hr as [-> | [(st & hb & -> & Hok & ->) | (st & -> & Hok & ->)]];
    simpl; rewrite ?Hok; reflexivity.
Qed.

Lemma on_read_failure s t k err :
  tasks s !! t = Some (Task k AwaitRead) ->
  exec (on_read t (ReadRejected err)) s =
  emit k [MsgError err] [(ERROR, "WebSocket error for " +:+ cid_of k s +:+ ":")]
    (set_tasks (delete t (tasks s)) s).
Proof.
  intros Ht. unfold exec, on_read, finish, catch_block. munfold. by rewrite Ht.
Qed.

(** X16.  When the upstream request fails (the fetch is rejected, the
    status is not 2xx, or a 2xx response has no body) or a read of the
    stream is rejected, the connection gets exactly one [error] event with
    the message of the failure, after whatever was sent before, and the
    generation is over: its handler is gone and no further request is
    made. *)
Theorem upstream_failure_ends_the_generation s t k w e err :
  sockets s !! k = Some w ->
  readyState w = OPEN ->
  (tasks s !! t = Some (Task k AwaitFetch)
   /\ (e = EvFetch t (FetchRejected err)
       \/ (exists st hb, e = EvFetch t (FetchResponse st hb)
                         /\ response_ok st = false /\ err = LlamaStatusError st)
       \/ (exists st, e = EvFetch t (FetchResponse st false)
                      /\ response_ok st = true /\ err = TypeError)))
  \/ (tasks s !! t = Some (Task k AwaitRead) /\ e = EvRead t (ReadRejected err)) ->
  sent_to k (exec (handle e) s) = sent_to k s ++ [MsgError err]
  /\ tasks (exec (handle e) s) = delete t (tasks s)
  /\ requests (exec (handle e) s) = requests s.
Proof.
  intros Hw Ho H.
  assert (E : exec (handle e) s =
              emit k [MsgError err]
                [(ERROR, "WebSocket error for " +:+ cid_of k s +:+ ":")]
                (set_tasks (delete t (tasks s)) s)).
  { destruct H as [[Ht Hr] | [Ht ->]].
    - destruct Hr as [-> | [(st & hb & -> & Hok & ->) | (st & -> & Hok & ->)]];
        simpl handle; apply on_fetch_failure; eauto 10.
    - simpl handle. by apply on_read_failure. }
  rewrite E. repeat split; try done.
  by rewrite (sent_to_emit k _ _ _ w).
Qed.

Lemma upstream_failure_ends_the_generation_witness :
  sent_to 0 (exec (handle (EvRead 0 (ReadRejected (IOError (lit "terminated")))))
               streaming0) =
  sent_to 0 streaming0 ++ [MsgError (IOError (lit "terminated"))].
Proof.
  apply (upstream_failure_ends_the_generation streaming0 0 0
           (Socket "c1" OPEN [MsgInfo "c1"])
           (EvRead 0 (ReadRejected (IOError (lit "terminated"))))
           (IOError (lit "terminated"))).
  - vm_compute. reflexivity.
  - reflexivity.
  - right. split; [vm_compute |]; reflexivity.
Defined.

(** ** The two chat paths *)

Lemma member_get_prop data k v k' :
  member data k = Some v -> get_prop data k' = inr (member data k').
Proof. unfold member. by destruct data. Qed.

(** What [POST /api/chat] does once the body has a [message] that is
    neither [undefined] nor [null]: it sends [chat_request b] and goes on
    with the answer. *)
Lemma api_chat_sends completion b msg s :
  member b "message" = Some msg ->
  msg <> JNull ->
  requests (exec (api_chat completion (Some b)) s) = requests s ++ [chat_request b].
Proof.
  intros Hm Hn. unfold exec, api_chat, fetch_json, send_request. munfold.
  rewrite !(member_get_prop b "message" msg _ Hm). unfold chat_request.
  rewrite Hm.
  destruct msg; try done; simpl;
    (destruct (completion _) as [e | st text]; [done |];
     destruct (JSON_parse text) as [[| ? | ? | ? | ? | ?] |]; simpl; done).
Qed.

(** X18.  The two chat paths treat the same fields differently.  Over the
    WebSocket a falsy [temperature] (0, for one) is replaced by 0.7 and a
    falsy [maxTokens] by 200, so a temperature of 0 cannot be asked for;
    [POST /api/chat] replaces only fields that are absent and passes such
    values on as they are. *)
Theorem chat_paths_differ_on_falsy_fields s k w message data msg temp completion :
  sockets s !! k = Some w ->
  JSON_parse message = Some data ->
  is_string (member data "type") "chat" = true ->
  member data "message" = Some msg ->
  msg <> JNull ->
  member data "temperature" = Some temp ->
  truthy (Some temp) = false ->
  (exists rq,
     requests (exec (on_message k message) s) = requests s ++ [rq]
     /\ temperature rq = default_temperature)
  /\ (exists rq,
        requests (exec (api_chat completion (Some data)) s) = requests s ++ [rq]
        /\ temperature rq = temp).
Proof.
  intros Hw Hj Hty Hm Hn Htemp Hf. split.
  - exists (stream_request data). split.
    + unfold exec.
      rewrite (on_message_chat s k w message data (member data "type") Hw Hj);
        [done | by apply (member_get_prop data "message" msg) | done].
    + unfold stream_request. simpl. rewrite Htemp. unfold or_default. by rewrite Hf.
  - exists (chat_request data). split.
    + by apply (api_chat_sends completion data msg).
    + unfold chat_request. simpl. by rewrite Htemp.
Qed.

Lemma chat_paths_differ_on_falsy_fields_witness :
  (exists rq,
     requests (exec (on_message 0
                       (lit "{" ++ quoted "type" ++ lit ":" ++ quoted "chat" ++ lit ","
                          ++ quoted "message" ++ lit ":" ++ quoted "hi" ++ lit ","
                          ++ quoted "temperature" ++ lit ":0}"))
                 (reach [EvConnection "c1"])) =
       requests (reach [EvConnection "c1"]) ++ [rq]
     /\ temperature rq = default_temperature)
  /\ (exists rq,
        requests
          (exec (api_chat (fun _ => CompletionRejected TypeError)
                   (Some (JObj [(lit "type", JStr (lit "chat"));
                                (lit "message", JStr (lit "hi"));
                                (lit "temperature", JNum (Number false 0 0))])))
             (reach [EvConnection "c1"])) =
          requests (reach [EvConnection "c1"]) ++ [rq]
        /\ temperature rq = JNum (Number false 0 0)).
Proof.
  apply (chat_paths_differ_on_falsy_fields (reach [EvConnection "c1"]) 0
           (Socket "c1" OPEN [MsgInfo "c1"])
           (lit "{" ++ quoted "type" ++ lit ":" ++ quoted "chat" ++ lit ","
              ++ quoted "message" ++ lit ":" ++ quoted "hi" ++ lit ","
              ++ quoted "temperature" ++ lit ":0}")
           (JObj [(lit "type", JStr (lit "chat"));
                  (lit "message", JStr (lit "hi"));
                  (lit "temperature", JNum (Number false 0 0))])
           (JStr (lit "hi")) (JNum (Number false 0 0))
           (fun _ => CompletionRejected TypeError)).
  - vm_compute. reflexivity.
  - vm_compute. reflexivity.
  - vm_compute. reflexivity.
  - vm_compute. reflexivity.
  - discriminate.
  - vm_compute. reflexivity.
  - vm_compute. reflexivity.
Defined.

(** X19.  [POST /api/chat] never looks at the status of the upstream
    response: whatever the status, a body that parses to something other
    than [null] is answered with status 200, with the [content] and
    [tokens_used] of the body when it has them and without them when it
    does not. *)
Theorem chat_ignores_the_upstream_status completion b msg st text data s :
  member b "message" = Some msg ->
  msg <> JNull ->
  completion (chat_request b) = CompletionResponse st text ->
  JSON_parse text = Some data ->
  data <> JNull ->
  fst (api_chat completion (Some b) s) =
  inr (Response 200
         (BodyJson (object [("response", member data "content");
                            ("tokens_used", member data "tokens_used")]))).
Proof.
  intros Hm Hn Hc Hj Hd. unfold api_chat, fetch_json, send_request. munfold.
  unfold chat_request in Hc. rewrite Hm in Hc.
  rewrite !(member_get_prop b "message" msg _ Hm), Hm.
  destruct msg; try done; simpl; rewrite Hc, Hj; simpl;
    unfold member; by destruct data.
Qed.

Lemma chat_ignores_the_upstream_status_witness :
  fst (api_chat
         (fun _ => CompletionResponse 503
                     (lit "{" ++ quoted "error" ++ lit ":" ++ quoted "loading model" ++ lit "}"))
         (Some (JObj [(lit "message", JStr (lit "hi"))])) initial) =
  inr (Response 200
         (BodyJson (object
            [("response",
              member (JObj [(lit "error", JStr (lit "loading model"))]) "content");
             ("tokens_used",
              member (JObj [(lit "error", JStr (lit "loading model"))]) "tokens_used")]))).
Proof.
  apply (chat_ignores_the_upstream_status
           (fun _ => CompletionResponse 503
                       (lit "{" ++ quoted "error" ++ lit ":" ++ quoted "loading model" ++ lit "}"))
           (JObj [(lit "message", JStr (lit "hi"))]) (JStr (lit "hi")) 503
           (lit "{" ++ quoted "error" ++ lit ":" ++ quoted "loading model" ++ lit "}")
           (JObj [(lit "error", JStr (lit "loading model"))]) initial).
  - vm_compute. reflexivity.
  - discriminate.
  - reflexivity.
  - vm_compute. reflexivity.
  - discriminate.
Defined.

(** X20.  When the completion request of [POST /api/chat] fails (the
    fetch is rejected, the body is not JSON, or the body is [null]) the
    answer is status 500 with the message of the failure, and the one
    request was sent. *)
Theorem chat_upstream_failure_gives_500 completion b msg err s :
  member b "message" = Some msg ->
  msg <> JNull ->
  completion (chat_request b) = CompletionRejected err
  \/ (exists st text, completion (chat_request b) = CompletionResponse st text
                      /\ JSON_parse text = None /\ err = SyntaxError)
  \/ (exists st text, completion (chat_request b) = CompletionResponse st text
                      /\ JSON_parse text = Some JNull /\ err = TypeError) ->
  fst (api_chat completion (Some b) s) = inr (Response 500 (BodyError err))
  /\ requests (exec (api_chat completion (Some b)) s) = requests s ++ [chat_request b].
Proof.
  intros Hm Hn Hc. split; [| by apply (api_chat_sends completion b msg)].
  unfold api_chat, fetch_json, send_request. munfold.
  unfold chat_request in Hc. rewrite Hm in Hc.
  rewrite !(member_get_prop b "message" msg _ Hm), Hm.
  destruct Hc as [Hc | [(st & text & Hc & Hj & ->) | (st & text & Hc & Hj & ->)]];
    destruct msg; try done; simpl; rewrite Hc; try rewrite Hj; done.
Qed.

Lemma chat_upstream_failure_gives_500_witness :
  fst (api_chat (fun _ => CompletionResponse 200 (lit "<html>"))
         (Some (JObj [(lit "message", JStr (lit "hi"))])) initial) =
  inr (Response 500 (BodyError SyntaxError)).
Proof.
  apply (chat_upstream_failure_gives_500
           (fun _ => CompletionResponse 200 (lit "<html>"))
           (JObj [(lit "message", JStr (lit "hi"))]) (JStr (lit "hi"))
           SyntaxError initial).
  - vm_compute. reflexivity.
  - discriminate.
  - right. left. exists 200%nat, (lit "<html>"). repeat split.
Defined.

(** ** The list of models, in general *)

(** X21.  For every listing of the models directory in which the files
    named [*.gguf] can be examined, [GET /api/models] answers with one
    entry for each such name, in the order of the listing, and with
    nothing else; a name counts exactly when it ends with [.gguf], and
    the other files are never examined. *)
Theorem models_lists_every_gguf_file fs files s :
  existsSync fs = true ->
  readdirSync fs = inr files ->
  Forall (fun f => exists z, statSync fs f = inr z) (filter is_gguf files) ->
  fst (api_models fs s) =
    inr (Response 200
           (BodyJson (JObj [(lit "models",
              JArr (map (fun f => listed f (size_of fs f)
                                    (Math_round_div (size_of fs f) (1024 * 1024)))
                      (filter is_gguf files)))])))
  /\ (forall f, is_gguf f <-> exists base, f = base ++ lit ".gguf").
Proof.
  intros He Hr Hall. split; [| intros f; apply endsWith_spec].
  unfold api_models. munfold. rewrite He, Hr, push_models_ok by done. done.
Qed.

Lemma models_lists_every_gguf_file_witness :
  fst (api_models
         (FsView true (inr [lit "a.gguf"; lit "A.GGUF"; lit ".gguf"; lit "b.gguf.part"])
            (fun f => if jsstring_eqb f (lit "a.gguf") then inr 3 else
                      if jsstring_eqb f (lit ".gguf") then inr 4 else
                      inl (IOError (lit "EACCES"))))
         initial) =
  inr (Response 200
         (BodyJson (JObj [(lit "models",
            JArr [listed (lit "a.gguf") 3 0; listed (lit ".gguf") 4 0])]))).
Proof.
  apply (models_lists_every_gguf_file
           (FsView true (inr [lit "a.gguf"; lit "A.GGUF"; lit ".gguf"; lit "b.gguf.part"])
              (fun f => if jsstring_eqb f (lit "a.gguf") then inr 3 else
                        if jsstring_eqb f (lit ".gguf") then inr 4 else
                        inl (IOError (lit "EACCES"))))
           [lit "a.gguf"; lit "A.GGUF"; lit ".gguf"; lit "b.gguf.part"] initial).
  - reflexivity.
  - reflexivity.
  - vm_compute. repeat constructor; eexists; reflexivity.
Defined.

(** ** Lines and payloads *)

Lemma split_pieces sep s :
  concat (map (fun piece => piece ++ [sep]) (split sep s)) = s ++ [sep]
  /\ Forall (fun piece => sep ∉ piece) (split sep s).
Proof.
  induction s as [| c s [IH1 IH2]]; simpl.
  - split; [done |]. repeat constructor. apply not_elem_of_nil.
  - destruct (c =? sep) eqn:E.
    + apply N.eqb_eq in E as ->. simpl. rewrite IH1. split; [done |].
      constructor; [apply not_elem_of_nil | done].
    + apply N.eqb_neq in E. pose proof (split_nonempty sep s) as Hne.
      destruct (split sep s) as [| p ps]; [done |].
      simpl in *. rewrite <- IH1. split; [done |].
      apply Forall_cons in IH2 as [Hp Hps]. constructor; [| done].
      rewrite elem_of_cons. intros [-> | H]; [done | by apply Hp].
Qed.

(** X6.  Splitting a chunk loses nothing and invents nothing: the lines,
    each followed by a line break, put together give the chunk followed by
    a line break, and no line contains a line break. *)
Theorem split_keeps_every_code_unit chunk :
  concat (map (fun line => line ++ [LF]) (split LF chunk)) = chunk ++ [LF]
  /\ Forall (fun line => LF ∉ line) (split LF chunk).
Proof. apply split_pieces. Qed.

Lemma prun_app st a b :
  prun st (a ++ b) =
  match prun st a with
  | Some st' => prun st' b
  | None => None
  end.
Proof.
  revert st. induction a as [| c a IH]; intros st; [done |].
  simpl. destruct (pstep st c); [apply IH | done].
Qed.

Lemma prun_plain stk key acc text rest :
  Forall plain text ->
  prun (PState stk (MStr key acc)) (text ++ rest) =
  prun (PState stk (MStr key (rev text ++ acc))) rest.
Proof.
  intros Hp. revert acc. induction Hp as [| c text (H1 & H2 & H3) _ IH];
    intros acc; [done |].
  simpl app. cbn [prun pstep pmode stack].
  apply N.eqb_neq in H2, H3. rewrite H2, H3.
  assert ((c <? 32) = false) as -> by (apply N.ltb_ge; lia).
  rewrite IH. simpl. by rewrite <- app_assoc.
Qed.

Lemma parse_content_text text :
  Forall plain text ->
  JSON_parse (content_text text) = Some (JObj [(lit "content", JStr text)]).
Proof.
  intros Hp. unfold JSON_parse.
  change (content_text text)
    with ((lit "{" ++ quoted "content" ++ lit ":" ++ [34]) ++ text ++ [34; 125]).
  rewrite prun_app.
  change (prun (PState [] MValue) (lit "{" ++ quoted "content" ++ lit ":" ++ [34]))
    with (Some (PState [FObj [] (Some (lit "content"))] (MStr false []))).
  cbv beta iota.
  rewrite (prun_plain _ _ _ _ _ Hp), app_nil_r.
  cbn [prun pstep pmode stack]. simpl. by rewrite rev_involutive.
Qed.

(** X7.  A line [data: {"content":"text"}] whose text needs no escape is
    forwarded as exactly one [token] message that carries the text as it
    is; with an empty text, as in the last payload of a completion,
    nothing is sent. *)
Theorem content_line_forwards_its_text k cid text s :
  Forall plain text ->
  text <> [] ->
  on_line k cid (data_line (content_text text)) s = ws_send k (MsgToken (JStr text)) s
  /\ on_line k cid (data_line (content_text [])) s = (inr tt, s).
Proof.
  intros Hp Hne. split.
  - rewrite on_line_emit.
    assert (Hm : line_msgs (data_line (content_text text)) = [MsgToken (JStr text)]).
    { unfold line_msgs, is_sentinel, line_token, content_of.
      rewrite payload_data_line, parse_content_text by done.
      assert (Hs : jsstring_eqb (content_text text) sentinel = false)
        by (apply bool_decide_eq_false_2; discriminate).
      rewrite Hs. simpl. unfold truthy, jsstring_eqb.
      by rewrite bool_decide_eq_false_2. }
    assert (Hl : line_logs cid (data_line (content_text text)) = []).
    { unfold line_logs. rewrite payload_data_line, parse_content_text by done.
      assert (Hs : jsstring_eqb (content_text text) sentinel = false)
        by (apply bool_decide_eq_false_2; discriminate).
      by rewrite Hs. }
    rewrite Hm, Hl. unfold ws_send, modify, emit, set_sockets. simpl.
    by rewrite app_nil_r.
  - rewrite on_line_emit.
    change (line_msgs (data_line (content_text []))) with (@nil server_msg).
    change (line_logs cid (data_line (content_text []))) with (@nil log_line).
    by rewrite emit_nil.
Qed.

Lemma content_line_forwards_its_text_witness :
  on_line 0 "c1" (data_line (content_text (lit "Hello, world"))) streaming0 =
  ws_send 0 (MsgToken (JStr (lit "Hello, world"))) streaming0.
Proof.
  apply (content_line_forwards_its_text 0 "c1" (lit "Hello, world") streaming0).
  - repeat constructor; vm_compute; discriminate.
  - discriminate.
Defined.

Lemma num_step_CR a : num_step a CR = None.
Proof. by destruct a as [[] sg m sc en ex]. Qed.

(** A carriage return after a text that parses changes nothing. *)
Lemma JSON_parse_CR p v :
  JSON_parse p = Some v -> JSON_parse (p ++ [CR]) = Some v.
Proof.
  unfold JSON_parse. rewrite prun_app.
  destruct (prun (PState [] MValue) p) as [[stk m] |]; [| done].
  intros H. destruct m; destruct stk; try discriminate H;
    unfold pfinish in H; simpl in H.
  - injection H as ->. reflexivity.
  - cbn [prun pstep pmode stack]. rewrite num_step_CR.
    revert H. destruct (num_finish na) as [n |]; intros H; [| done].
    injection H as <-. reflexivity.
Qed.

Lemma not_sentinel_CR p : p ++ [CR] <> sentinel.
Proof.
  intros H. apply (f_equal (@rev N)) in H. rewrite rev_app_distr in H.
  discriminate H.
Qed.

(** X8.  When the lines of the upstream end with CR LF, a payload that
    parses is forwarded as with LF alone, but the sentinel line is not
    recognised: it is logged as unparseable and no [done] is sent. *)
Theorem crlf_stream_gets_tokens_but_no_done k cid p v s :
  JSON_parse p = Some v ->
  on_line k cid (data_line p ++ [CR]) s = on_line k cid (data_line p) s
  /\ on_line k cid (data_line sentinel ++ [CR]) s =
     (inr tt, set_log (log s ++ [(ERROR, "Error parsing stream data:")]) s).
Proof.
  intros Hj. split.
  - assert (Hp : p <> sentinel) by (intros ->; discriminate Hj).
    rewrite !on_line_emit. unfold data_line. rewrite <- app_assoc.
    fold (data_line (p ++ [CR])). fold (data_line p).
    unfold line_msgs, line_logs, is_sentinel, line_token, content_of.
    rewrite !payload_data_line, (JSON_parse_CR p v Hj), Hj.
    unfold jsstring_eqb.
    rewrite (bool_decide_eq_false_2 _ (not_sentinel_CR p)).
    by rewrite (bool_decide_eq_false_2 _ Hp).
  - rewrite on_line_emit.
    change (line_msgs (data_line sentinel ++ [CR])) with (@nil server_msg).
    change (line_logs cid (data_line sentinel ++ [CR]))
      with [(ERROR, "Error parsing stream data:")].
    apply f_equal, emit_log.
Qed.

Lemma crlf_stream_gets_tokens_but_no_done_witness :
  on_line 0 "c1" (data_line (content_payload "a") ++ [CR]) streaming0 =
  on_line 0 "c1" (data_line (content_payload "a")) streaming0.
Proof.
  apply (crlf_stream_gets_tokens_but_no_done 0 "c1" (content_payload "a")
           (JObj [(lit "content", JStr (lit "a"))]) streaming0).
  vm_compute. reflexivity.
Defined.

(** ** The configuration of the server *)

(** X22.  For a command line made of options [--k v], every setting of
    the server follows the same precedence: the value of the last option
    of its name when that value is not empty; without such an option, the
    environment variable when it is set and not empty; and the default
    when neither is given. *)
Theorem server_settings_precedence options env :
  Forall
    (fun entry =>
       let '(get, name, var, d) := entry in
       let cfg := load_config (parse_argv (option_args options) ∅) env in
       (forall pre v post,
          options = pre ++ (lit name, v) :: post ->
          lit name ∉ map fst post -> v <> [] -> get cfg = SStr v)
       /\ (forall e,
             lit name ∉ map fst options ->
             env var = Some e -> e <> [] -> get cfg = SStr e)
       /\ (lit name ∉ map fst options -> env var = None -> get cfg = d))
    settings_table.
Proof.
  unfold settings_table.
  repeat first [apply List.Forall_cons | apply List.Forall_nil];
    (split; [| split];
     [ intros pre v post Ho Hk Hv; simpl; unfold parsed; rewrite Ho;
       rewrite (parse_argv_last pre _ v post Hk) by discriminate; simpl;
       by destruct v
     | intros e Hk He Hne; simpl; unfold parsed;
       rewrite (parse_argv_absent options _ Hk); simpl;
       rewrite He; by destruct e
     | intros Hk He; simpl; unfold parsed;
       rewrite (parse_argv_absent options _ Hk); simpl;
       by rewrite He ]).
Qed.

Lemma server_settings_precedence_witness :
  port (load_config
          (parse_argv (option_args [(lit "port", lit "4000"); (lit "port", lit "5000")]) ∅)
          (fun v => if String.eqb v "PORT" then Some (lit "6000") else None)) =
  SStr (lit "5000").
Proof.
  pose proof (server_settings_precedence
                [(lit "port", lit "4000"); (lit "port", lit "5000")]
                (fun v => if String.eqb v "PORT" then Some (lit "6000") else None)) as H.
  apply Forall_cons in H as [(H & _) _].
  apply (H [(lit "port", lit "4000")] (lit "5000") []).
  - reflexivity.
  - simpl. apply not_elem_of_nil.
  - discriminate.
Defined.

(** ** Timers and chunking *)

Lemma timers_sound_handle e s :
  bounded s -> timers_sound s -> timers_sound (exec (handle e) s).
Proof.
  intros Hb Hr. unfold timers_sound in *. destruct (is_traffic e) eqn:Ht.
  - destruct (handle_sends_only e s Ht) as (k0 & [msgs E] & _ & Eh & _).
    rewrite Eh, E. intros k. rewrite Hr. destruct (decide (k0 = k)) as [-> |].
    + rewrite lookup_alter_eq. split.
      * intros (w & Hw & Hn). exists (deliver msgs w). rewrite Hw.
        by rewrite deliver_readyState.
      * intros (w' & Hw' & Hn). destruct (sockets s !! k) as [w |]; [| done].
        injection Hw' as <-. exists w. by rewrite deliver_readyState in Hn.
    + by rewrite lookup_alter_ne.
  - destruct e as [cid0 | | | | k0 | k0 | |]; try done; simpl handle.
    + rewrite on_connection_state. simpl. intros k.
      rewrite elem_of_union, elem_of_singleton, Hr, lookup_insert.
      case_decide as Hd.
      * subst k. split; [intros _ | by left]. by eexists.
      * split; [intros [? | ?]; [congruence | done] | by right].
    + unfold exec, on_closing. simpl. intros k. rewrite Hr.
      destruct (decide (k0 = k)) as [-> |]; [| by rewrite lookup_alter_ne].
      rewrite lookup_alter_eq. split.
      * intros (w & Hw & Hn). rewrite Hw. simpl. eexists. split; [done |].
        by destruct w as [c [] m].
      * intros (w' & Hw' & Hn). destruct (sockets s !! k) as [w |]; [| done].
        exists w. split; [done |]. injection Hw' as <-.
        by destruct w as [c [] m].
    + destruct (sockets s !! k0) as [w0 |] eqn:Hw0.
      * rewrite (on_close_state k0 w0 s Hw0). simpl. intros k.
        rewrite elem_of_difference, elem_of_singleton, Hr, lookup_insert.
        case_decide as Hd.
        -- subst k. split; [by intros [_ ?] |]. by intros (w & [= <-] & Hn).
        -- split; [by intros [? _] | intros; split; [done | congruence]].
      * by rewrite (on_close_absent k0 s Hw0).
Qed.

(** X23.  In every state the server reaches, the heartbeat timers that
    are armed are exactly those of the connections that are not closed:
    every connection has its timer until its close, and no timer outlives
    its connection. *)
Theorem timers_are_those_of_live_sockets es k :
  k ∈ heartbeats (reach es) <->
  exists w, sockets (reach es) !! k = Some w /\ readyState w <> CLOSED.
Proof.
  revert k. change (timers_sound (reach es)).
  induction es as [| e es IH] using rev_ind.
  - intros k. unfold reach. simpl. rewrite lookup_empty. split.
    + intros H. by apply not_elem_of_empty in H.
    + by intros (w & H & _).
  - rewrite (reach_app es [e]), run_cons, run_nil.
    apply timers_sound_handle; [apply bounded_reach | done].
Qed.

(** X24.  When chunks end at line breaks, how the upstream text is cut
    into chunks does not matter: two such cuts of one text lead to the
    same messages on every socket. *)
Theorem cutting_at_line_breaks_does_not_matter t k chunks1 chunks2 s :
  tasks s !! t = Some (Task k AwaitRead) ->
  Forall ends_line chunks1 ->
  Forall ends_line chunks2 ->
  concat chunks1 = concat chunks2 ->
  sockets (exec (run (reads t chunks1)) s) = sockets (exec (run (reads t chunks2)) s).
Proof.
  intros Ht H1 H2 Hc.
  destruct (run_reads t k chunks1 s Ht) as [l1 ->].
  destruct (run_reads t k chunks2 s Ht) as [l2 ->].
  simpl. by rewrite !aligned_chunks_as_one_text, Hc.
Qed.

Lemma cutting_at_line_breaks_does_not_matter_witness :
  sockets
    (exec (run (reads 0 [data_line (content_payload "a") ++ [LF];
                         [LF] ++ data_line (content_payload "b") ++ [LF]]))
       streaming0) =
  sockets
    (exec (run (reads 0 [data_line (content_payload "a") ++ [LF; LF]
                           ++ data_line (content_payload "b") ++ [LF]]))
       streaming0).
Proof.
  apply (cutting_at_line_breaks_does_not_matter 0 0
           [data_line (content_payload "a") ++ [LF];
            [LF] ++ data_line (content_payload "b") ++ [LF]]
           [data_line (content_payload "a") ++ [LF; LF]
              ++ data_line (content_payload "b") ++ [LF]]
           streaming0).
  - vm_compute. reflexivity.
  - repeat constructor.
    + by exists (data_line (content_payload "a")).
    + by exists ([LF] ++ data_line (content_payload "b")).
  - repeat constructor.
    by exists (data_line (content_payload "a") ++ [LF; LF]
                 ++ data_line (content_payload "b")).
  - vm_compute. reflexivity.
Defined.
